(** * The graphics manager of kitty (kitty/graphics.c)

    A shallow embedding of the image store and of the transmit command
    (handle_add_command, grman_handle_command), followed by the properties
    of the store and of the protocol state machine.

    Conventions of the embedding.
    - C integers are [Z]; every wrap-around of the source is written out
      ([wrap_size] for size_t, [wrap_u32] for the 32-bit product).
    - The array [self->images] is the list of its [image_count] live slots.
      The slots behind them, up to the capacity, are all-zero bytes (calloc
      in grman_realloc, memset in remove_from_array), so the slot handed
      out by find_or_create_image is [zero_image] while the array has room.
    - Where the behaviour of the source is undefined the model logs
      [Undefined] and says in place which run it follows from there on:
      ensure_space on a full array (it zeroes the new half through the
      pointer it passed to realloc) and the [int] product of inflate_png.
      Nothing is claimed of the program after such an event; the
      properties that depend on it exclude it by a hypothesis.
    - An [Image *] is an index into that list.
    - A heap block is an address with its bytes; addresses come from the
      counter [next_addr] (malloc and mmap never return a live address
      twice).  Freshly allocated bytes are modelled as zero bytes.
    - malloc and realloc succeed (on failure the source calls fatal()).
    - stderr, free, munmap, close, unlink and shm_unlink are recorded in the
      chronological [log] of the state.
    - open, lseek, mmap, zlib and libpng are answered by an [Env], one per
      command: each of them is called at most once per command. *)

From Stdlib Require Import ZArith List Lia Bool Ascii.
From Stdlib Require Import Init.Byte.
From stdpp Require Import base list.
Import ListNotations.

Local Open Scope Z_scope.

(** ** Machine integers *)

(** Modelled from the spec: graphics.h (the declarations of Image, LoadData,
    GraphicsCommand and GraphicsManager) is not part of the sources.  The
    data model gives the fields as unsigned integers; the widths are those
    the code shows: [uint32_t id], [size_t internal_id_counter], sizes
    printed with %zu (64-bit size_t), and the 32-bit command fields
    (format printed with %u) among which width and height are counted. *)
Definition size_mod : Z := 2 ^ 64.
Definition u32_mod : Z := 2 ^ 32.
Definition wrap_size (z : Z) : Z := z mod size_mod.
Definition wrap_u32 (z : Z) : Z := z mod u32_mod.

(** Character constants of the protocol, as [unsigned char] values. *)
Definition chr (c : ascii) : Z := Z.of_nat (nat_of_ascii c).

(** enum FORMATS { RGB=24, RGBA=32, PNG=100 } *)
Definition RGB : Z := 24.
Definition RGBA : Z := 32.
Definition PNG : Z := 100.

(** zlib.h *)
Definition Z_OK : Z := 0.
Definition Z_STREAM_END : Z := 1.

(** ** Data *)

(** A block of memory: where it starts and the bytes it holds. *)
Record block := { addr : Z; bytes : list byte }.

(** Modelled from the spec: the structs of graphics.h, which is not part of
    the sources, with the fields graphics.c reads and writes (the data
    model names them: accumulation buffer with used and capacity, file
    descriptor, mapped region with its size, expected size, data pointer,
    alignment flag). *)
Record LoadData := {
  buf : option block;
  is_4byte_aligned : bool;
  buf_capacity : Z;
  buf_used : Z;
  mapped_file : option block;
  mapped_file_sz : Z;
  data_sz : Z;
  data : option Z;          (* uint8_t *data: the address it holds *)
  fd : Z
}.

(** Modelled from the spec: the image record of graphics.h (the unused
    texture_id is left out). *)
Record Image := {
  client_id : Z;
  width : Z;
  height : Z;
  internal_id : Z;
  refcnt : Z;
  data_loaded : bool;
  load_data : LoadData
}.

(** Modelled from the spec: the parsed command of graphics.h, with the
    fields handle_add_command reads. *)
Record GraphicsCommand := {
  action : Z;
  transmission_type : Z;
  compressed : Z;
  format : Z;
  more : Z;
  id : Z;
  data_width : Z;
  data_height : Z;
  payload_sz : Z
}.

(** What REPORT_ERROR prints. *)
Inductive report :=
| SeekFailed
| MapFailed
| InflateInitFailed (ret : Z)
| InflateFailed (ret : Z)
| PngFailed
| UnknownImageFormat (f : Z)
| NonExistentImage
| TooMuchData
| OpenFailed
| UnknownTransmissionType (c : Z)
| UnknownCompression (c : Z)
| InsufficientData (have want : Z)
| UnknownAction (c : Z).

(** Where the source leaves the defined behaviour of C: a memset of
    [count] slots from slot [first] on through the pointer that was passed
    to realloc, and the product of two [int] that is not an [int]. *)
Inductive undefined :=
| StaleMemset (first count : Z)
| IntOverflow (a b : Z).

Inductive event :=
| Report (r : report)
| Free (a : Z)
| Munmap (a sz : Z)
| Close (f : Z)
| Unlink (path : list byte)
| ShmUnlink (path : list byte)
| Undefined (u : undefined).

(** The manager together with the two process-wide counters it works with
    (the static [internal_id_counter] and the allocator) and the log. *)
Record State := {
  images : list Image;
  images_capacity : Z;
  loading_image : Z;
  internal_id_counter : Z;
  next_addr : Z;
  log : list event
}.

(** What libpng finds in its input once the header is read: the values
    the source stores in [int width, height, rowbytes], whether
    png_read_image gets through the image data (it leaves by longjmp
    otherwise), and the bytes it has written to the rows. *)
Record PngImage := {
  png_width : Z;
  png_height : Z;
  png_rowbytes : Z;
  png_complete : bool;
  png_rows : list byte
}.

(** The answers of the operating system and of the two codecs. *)
Record Env := {
  sys_open : bool -> list byte -> Z;          (* shm_open / open: fd or -1 *)
  sys_lseek_end : Z -> Z;                      (* lseek(fd, 0, SEEK_END) *)
  sys_mmap : Z -> Z -> option (list byte);     (* None is MAP_FAILED *)
  zlib_inflateInit : Z;
  zlib_inflate : list byte -> Z -> Z * Z * list byte;
                  (* the avail_in bytes of input, avail_out
                     |-> return code, avail_out, output *)
  png_read : list byte -> option PngImage
                  (* None: an error before png_read_update_info returns *)
}.

(** ** Field updates *)

Definition zero_load_data : LoadData :=
  {| buf := None; is_4byte_aligned := false; buf_capacity := 0;
     buf_used := 0; mapped_file := None; mapped_file_sz := 0; data_sz := 0;
     data := None; fd := 0 |}.

Definition zero_image : Image :=
  {| client_id := 0; width := 0; height := 0; internal_id := 0; refcnt := 0;
     data_loaded := false; load_data := zero_load_data |}.

Definition set_buf (b : option block) (used cap : Z) (ld : LoadData) :=
  {| buf := b; is_4byte_aligned := is_4byte_aligned ld; buf_capacity := cap;
     buf_used := used; mapped_file := mapped_file ld;
     mapped_file_sz := mapped_file_sz ld; data_sz := data_sz ld;
     data := data ld; fd := fd ld |}.

Definition set_mapped_file (m : option block) (sz : Z) (ld : LoadData) :=
  {| buf := buf ld; is_4byte_aligned := is_4byte_aligned ld;
     buf_capacity := buf_capacity ld; buf_used := buf_used ld;
     mapped_file := m; mapped_file_sz := sz; data_sz := data_sz ld;
     data := data ld; fd := fd ld |}.

Definition set_fd (f : Z) (ld : LoadData) :=
  {| buf := buf ld; is_4byte_aligned := is_4byte_aligned ld;
     buf_capacity := buf_capacity ld; buf_used := buf_used ld;
     mapped_file := mapped_file ld; mapped_file_sz := mapped_file_sz ld;
     data_sz := data_sz ld; data := data ld; fd := f |}.

Definition set_data (d : option Z) (ld : LoadData) :=
  {| buf := buf ld; is_4byte_aligned := is_4byte_aligned ld;
     buf_capacity := buf_capacity ld; buf_used := buf_used ld;
     mapped_file := mapped_file ld; mapped_file_sz := mapped_file_sz ld;
     data_sz := data_sz ld; data := d; fd := fd ld |}.

Definition set_data_sz (sz : Z) (aligned : bool) (ld : LoadData) :=
  {| buf := buf ld; is_4byte_aligned := aligned;
     buf_capacity := buf_capacity ld; buf_used := buf_used ld;
     mapped_file := mapped_file ld; mapped_file_sz := mapped_file_sz ld;
     data_sz := sz; data := data ld; fd := fd ld |}.

Definition set_load_data (f : LoadData -> LoadData) (img : Image) :=
  {| client_id := client_id img; width := width img; height := height img;
     internal_id := internal_id img; refcnt := refcnt img;
     data_loaded := data_loaded img; load_data := f (load_data img) |}.

Definition set_data_loaded (b : bool) (img : Image) :=
  {| client_id := client_id img; width := width img; height := height img;
     internal_id := internal_id img; refcnt := refcnt img;
     data_loaded := b; load_data := load_data img |}.

Definition set_ids (internal client : Z) (img : Image) :=
  {| client_id := client; width := width img; height := height img;
     internal_id := internal; refcnt := refcnt img;
     data_loaded := data_loaded img; load_data := load_data img |}.

Definition set_dims (w h : Z) (img : Image) :=
  {| client_id := client_id img; width := w; height := h;
     internal_id := internal_id img; refcnt := refcnt img;
     data_loaded := data_loaded img; load_data := load_data img |}.

Definition set_images (f : list Image -> list Image) (s : State) :=
  {| images := f (images s); images_capacity := images_capacity s;
     loading_image := loading_image s;
     internal_id_counter := internal_id_counter s;
     next_addr := next_addr s; log := log s |}.

Definition set_images_capacity (c : Z) (s : State) :=
  {| images := images s; images_capacity := c;
     loading_image := loading_image s;
     internal_id_counter := internal_id_counter s;
     next_addr := next_addr s; log := log s |}.

Definition set_loading_image (l : Z) (s : State) :=
  {| images := images s; images_capacity := images_capacity s;
     loading_image := l; internal_id_counter := internal_id_counter s;
     next_addr := next_addr s; log := log s |}.

Definition set_internal_id_counter (c : Z) (s : State) :=
  {| images := images s; images_capacity := images_capacity s;
     loading_image := loading_image s; internal_id_counter := c;
     next_addr := next_addr s; log := log s |}.

Definition set_next_addr (a : Z) (s : State) :=
  {| images := images s; images_capacity := images_capacity s;
     loading_image := loading_image s;
     internal_id_counter := internal_id_counter s;
     next_addr := a; log := log s |}.

Definition emit (evs : list event) (s : State) :=
  {| images := images s; images_capacity := images_capacity s;
     loading_image := loading_image s;
     internal_id_counter := internal_id_counter s;
     next_addr := next_addr s; log := log s ++ evs |}.

(** [*img], and an assignment through [img]. *)
Definition img_at (s : State) (i : nat) : Image :=
  default zero_image (images s !! i).

Definition upd_img (i : nat) (f : Image -> Image) (s : State) : State :=
  set_images (alter f i) s.

(** malloc: a fresh address; the caller builds the block. *)
Definition malloc (s : State) : Z * State :=
  (next_addr s, set_next_addr (next_addr s + 1) s).

(** ** The store *)

(** grman_realloc(NULL, ...) in a fresh process. *)
Definition grman_new : State :=
  {| images := []; images_capacity := 64; loading_image := 0;
     internal_id_counter := 1; next_addr := 1; log := [] |}.

(** free_load_data: the released resources and the cleared fields. *)
Definition free_load_data (ld : LoadData) : list event * LoadData :=
  let e1 := match buf ld with Some b => [Free (addr b)] | None => [] end in
  let e2 := match mapped_file ld with
            | Some m => [Munmap (addr m) (mapped_file_sz ld)]
            | None => []
            end in
  let e3 := if 0 <? fd ld then [Close (fd ld)] else [] in
  (e1 ++ e2 ++ e3,
   set_fd (-1) (set_mapped_file None 0 (set_buf None 0 0 ld))).

Definition free_image (img : Image) : list event * Image :=
  let '(evs, ld) := free_load_data (load_data img) in
  (evs, set_load_data (fun _ => ld) img).

(** ensure_space on self->images: the new capacity, and what the call
    does to the memory.  With room it does nothing.  On a full array it
    calls realloc for twice the capacity and then zeroes the new half
    through [array], the pointer it passed to realloc, not through [ans]:
    [capacity] slots from slot [capacity] on, which the old block does not
    have.  That is undefined behaviour, a write behind a freed block
    whenever realloc moves the array, and the new half of the moved array
    is never initialised.  The event records it; from there on the model
    follows the run in which realloc extends the block in place, the only
    one in which this memset clears the new slots. *)
Definition ensure_space (capacity count : Z) : Z * list event :=
  if count <? capacity then (capacity, [])
  else (wrap_size (capacity * 2),
        [Undefined (StaleMemset capacity capacity)]).

Definition find_or_create_image (s : State) (cid : Z) : State * nat * bool :=
  match (if cid =? 0 then None
         else list_find (fun img => client_id img = cid) (images s)) with
  | Some (i, _) => (s, i, true)
  | None =>
      let count := length (images s) in
      let grown := ensure_space (images_capacity s) (Z.of_nat count) in
      let s := emit (snd grown) (set_images_capacity (fst grown) s) in
      (set_images (fun l => l ++ [zero_image]) s, count, false)
  end.

(** remove_from_array followed by the caller's [image_count--]: the slots
    right of [idx] move one place left and the last slot is zeroed. *)
Definition remove_from_array (idx : nat) (l : list Image) : list Image :=
  delete idx l.

(** The loop of remove_images, [i] running from [image_count] down. *)
Fixpoint remove_images_from (predicate : Image -> bool) (i : nat)
    (s : State) : State :=
  match i with
  | O => s
  | S j =>
      remove_images_from predicate j
        (match images s !! j with
         | Some img =>
             if predicate img
             then emit (fst (free_image img))
                    (set_images (remove_from_array j) s)
             else s
         | None => s
         end)
  end.

Definition remove_images (predicate : Image -> bool) (s : State) : State :=
  remove_images_from predicate (length (images s)) s.

Definition img_by_internal_id (s : State) (iid : Z) : option nat :=
  fst <$> list_find (fun img => internal_id img = iid) (images s).

Definition add_trim_predicate (img : Image) : bool :=
  negb (data_loaded img) || ((client_id img =? 0) && (refcnt img =? 0)).

(** ** Media acquisition and the two decoders *)

Definition mmap_img_file (E : Env) (s : State) (i : nat) : bool * State :=
  let f := fd (load_data (img_at s i)) in
  let file_sz := sys_lseek_end E f in
  if file_sz =? -1 then (false, emit [Report SeekFailed] s)
  else
    match sys_mmap E f file_sz with
    | None => (false, emit [Report MapFailed] s)
    | Some bs =>
        let '(a, s) := malloc s in
        (true,
         upd_img i
           (set_load_data
              (set_mapped_file (Some {| addr := a; bytes := bs |})
                 (wrap_size file_sz))) s)
    end.

(** The macro IB: the bytes the decoders read, [bufsz] of them. *)
Definition IB (ld : LoadData) : list byte :=
  match buf ld with
  | Some b => take (Z.to_nat (buf_used ld)) (bytes b)
  | None =>
      match mapped_file ld with
      | Some m => take (Z.to_nat (mapped_file_sz ld)) (bytes m)
      | None => []
      end
  end.

(** [bufsz] of the macro IB. *)
Definition IB_sz (ld : LoadData) : Z :=
  match buf ld with
  | Some _ => buf_used ld
  | None => mapped_file_sz ld
  end.

(** inflate_zlib.  [z.avail_in] and [z.avail_out] are zlib's [uInt], 32
    bits: the assignments of [bufsz] and of [data_sz] keep their low 32
    bits, so zlib is given the first [avail_in] bytes of the input and
    counts the output against [data_sz] modulo 2^32, while the output
    buffer has [data_sz] bytes.  The block of the result holds the bytes
    zlib has written. *)
Definition inflate_zlib (E : Env) (s : State) (i : nat) (src : list byte)
    (bufsz : Z) : bool * State :=
  let dsz := data_sz (load_data (img_at s i)) in
  let '(decompressed, s) := malloc s in
  let avail_in := wrap_u32 bufsz in
  if negb (zlib_inflateInit E =? Z_OK) then
    (false,
     emit [Report (InflateInitFailed (zlib_inflateInit E)); Free decompressed]
       s)
  else
    let '(ret, avail_out, out) :=
      zlib_inflate E (take (Z.to_nat avail_in) src) (wrap_u32 dsz) in
    if negb (ret =? Z_STREAM_END) then
      (false, emit [Report (InflateFailed ret); Free decompressed] s)
    else if negb (avail_out =? 0) then
      (false, emit [Report (InflateFailed ret); Free decompressed] s)
    else
      let '(evs, ld) := free_load_data (load_data (img_at s i)) in
      (true,
       upd_img i
         (set_load_data
            (fun _ =>
               set_buf (Some {| addr := decompressed; bytes := out |})
                 (wrap_size (dsz - avail_out)) dsz ld))
         (emit evs s)).

(** The value of an [int] expression where two's complement wraps it. *)
Definition int_wrap (z : Z) : Z := (z + 2 ^ 31) mod 2 ^ 32 - 2 ^ 31.

(** inflate_png.  An error before the buffers are allocated is reported
    and nothing else happens ([free] of a null pointer).  [rowbytes *
    height] is a product of two [int]: when it is not an [int] the
    behaviour is undefined; the event records it and the model goes on
    with the wrapped product, as the usual compilation does, libpng
    writing behind the buffer then.  After the two allocations either
    png_read_image leaves by longjmp, and both blocks are freed (the two
    pointers are read after the longjmp as they were stored), or the
    staging state is released, the rows become the buffer, and the row
    pointers are freed. *)
Definition inflate_png (E : Env) (s : State) (i : nat) (src : list byte)
  : bool * State :=
  match png_read E src with
  | None => (false, emit [Report PngFailed] s)
  | Some p =>
      let product := png_rowbytes p * png_height p in
      let sz := wrap_size (int_wrap product) in
      let s :=
        if int_wrap product =? product then s
        else emit [Undefined (IntOverflow (png_rowbytes p) (png_height p))]
               s in
      let '(decompressed, s) := malloc s in
      let '(row_pointers, s) := malloc s in
      if png_complete p then
        let '(evs, ld) := free_load_data (load_data (img_at s i)) in
        (true,
         emit [Free row_pointers]
           (upd_img i
              (fun img =>
                 set_dims (wrap_u32 (png_width p)) (wrap_u32 (png_height p))
                   (set_load_data
                      (fun _ =>
                         set_buf
                           (Some {| addr := decompressed;
                                    bytes := png_rows p |})
                           sz sz ld) img))
              (emit evs s)))
      else
        (false,
         emit [Report PngFailed; Free decompressed; Free row_pointers] s)
  end.

(** memcpy(dst + off, src, n) on the bytes of a block. *)
Definition memcpy_at (dst : list byte) (off : nat) (src : list byte)
    (n : nat) : list byte :=
  take off dst ++ take n src ++ drop (off + n) dst.

(** ** The read function handed to libpng *)

(** [struct fake_file { uint8_t *buf; size_t sz, cur; }] *)
Record fake_file := { ff_buf : list byte; ff_sz : Z; ff_cur : Z }.

(** read_png_from_buffer: the bytes of [out] after the call, and the file;
    [f] is what png_get_io_ptr returns, [None] for a null pointer.  MIN
    comes from a header outside these sources and is read as the smaller
    of its two arguments. *)
Definition read_png_from_buffer (f : option fake_file) (out : list byte)
    (length : Z) : list byte * option fake_file :=
  match f with
  | Some f =>
      let avail := wrap_size (ff_sz f - ff_cur f) in
      let amt := if length <? avail then length else avail in
      (memcpy_at out 0 (drop (Z.to_nat (ff_cur f)) (ff_buf f)) (Z.to_nat amt),
       Some {| ff_buf := ff_buf f; ff_sz := ff_sz f;
               ff_cur := wrap_size (ff_cur f + amt) |})
  | None => (out, None)
  end.

(** ** handle_add_command *)

(** Where the function stands after a stage: it has returned, or it goes
    on with the image [img]. *)
Inductive flow :=
| Return (s : State)
| Go (s : State) (img : nat).

(** [unsigned char tt = g->transmission_type ? g->transmission_type : 'd'] *)
Definition transmission (g : GraphicsCommand) : Z :=
  if transmission_type g =? 0 then chr "d" else transmission_type g.

(** [init_img] *)
Definition init_img (s : State) (g : GraphicsCommand) : bool :=
  negb ((transmission g =? chr "d")
        && (negb (more g =? 0) && negb (loading_image s =? 0))).

(** The size in bytes and the alignment flag of [switch(g->format)];
    [None] is the default case. *)
Definition format_size (g : GraphicsCommand) (w sz : Z) : option (Z * bool) :=
  if format g =? PNG then Some (wrap_size (sz * 4), true)
  else if (format g =? RGB) || (format g =? RGBA) then
    Some (wrap_size (sz * (format g / 8)),
          (format g =? RGBA) || (w mod 4 =? 0))
  else None.

(** The branch [if (init_img)], up to the choice of the image: the sweep,
    find_or_create_image, and the reset of an existing image or the
    numbering of a new one. *)
Definition target_image (s : State) (g : GraphicsCommand) : State * nat :=
  let s := remove_images add_trim_predicate s in
  let '(s, i, existing) := find_or_create_image s (id g) in
  if existing : bool then
    let '(evs, ld) := free_load_data (load_data (img_at s i)) in
    (upd_img i
       (fun img => set_data_loaded false (set_load_data (fun _ => ld) img))
       (emit evs s), i)
  else
    let c := internal_id_counter s in
    (set_internal_id_counter (wrap_size (c + 1))
       (upd_img i (set_ids c (id g)) s), i).

(** The rest of the branch [if (init_img)]. *)
Definition start_image (s : State) (g : GraphicsCommand) : flow :=
  let tt := transmission g in
  let '(s, i) := target_image s g in
  let s := upd_img i (set_dims (data_width g) (data_height g)) s in
  let w := width (img_at s i) in
  let sz := wrap_u32 (w * height (img_at s i)) in
  match format_size g w sz with
  | None => Return (emit [Report (UnknownImageFormat (format g))] s)
  | Some (sz, aligned) =>
      let s := upd_img i (set_load_data (set_data_sz sz aligned)) s in
      if tt =? chr "d" then
        let s :=
          if negb (more g =? 0)
          then set_loading_image (internal_id (img_at s i)) s
          else s in
        let cap :=
          wrap_size
            (sz + (if negb (compressed g =? 0) || (format g =? PNG)
                   then 1024 else 10)) in
        let '(a, s) := malloc s in
        Go (upd_img i
              (set_load_data
                 (set_buf
                    (Some {| addr := a;
                             bytes := repeat x00
                                        (Z.to_nat (wrap_size (cap + 4))) |})
                    0 cap)) s) i
      else Go s i
  end.

(** The branch [else]: the image the pending load refers to. *)
Definition continue_image (s : State) : flow :=
  match img_by_internal_id s (loading_image s) with
  | None => Return (emit [Report NonExistentImage] (set_loading_image 0 s))
  | Some i => Go s i
  end.

(** [case 'd'].  The buffer is not NULL when the test lets the chunk
    through: a record without buffer has capacity 0. *)
Definition acquire_direct (s : State) (i : nat) (g : GraphicsCommand)
    (payload : list byte) : flow :=
  let ld := load_data (img_at s i) in
  if payload_sz g >=? wrap_size (buf_capacity ld - buf_used ld) then
    Return (emit [Report TooMuchData] s)
  else
    let write (b : block) :=
      {| addr := addr b;
         bytes := memcpy_at (bytes b) (Z.to_nat (buf_used ld)) payload
                    (Z.to_nat (payload_sz g)) |} in
    let s :=
      upd_img i
        (set_load_data
           (set_buf (write <$> buf ld)
              (wrap_size (buf_used ld + payload_sz g)) (buf_capacity ld)))
        s in
    Go (if more g =? 0
        then set_loading_image 0 (upd_img i (set_data_loaded true) s)
        else s) i.

(** [case 'f': case 't': case 's'] *)
Definition acquire_file (E : Env) (s : State) (i : nat) (tt : Z)
    (payload : list byte) : flow :=
  let f := sys_open E (tt =? chr "s") payload in
  if f =? -1 then Return (emit [Report OpenFailed] s)
  else
    let s := upd_img i (set_load_data (set_fd f)) s in
    let '(ok, s) := mmap_img_file E s i in
    let s := upd_img i (set_data_loaded ok) s in
    Go (if tt =? chr "t" then emit [Unlink payload] s
        else if tt =? chr "s" then emit [ShmUnlink payload] s
        else s) i.

(** [switch(tt)] *)
Definition acquire (E : Env) (s : State) (i : nat) (g : GraphicsCommand)
    (payload : list byte) : flow :=
  let tt := transmission g in
  if tt =? chr "d" then acquire_direct s i g payload
  else if (tt =? chr "f") || (tt =? chr "t") || (tt =? chr "s") then
    acquire_file E s i tt payload
  else Return (emit [Report (UnknownTransmissionType (transmission_type g))] s).

Definition fail_load (i : nat) (s : State) : State :=
  upd_img i (set_data_loaded false) s.

(** REPORT_ERROR("Insufficient image data: ...") and its assignment. *)
Definition insufficient (i : nat) (have : Z) (s : State) : State :=
  fail_load i
    (emit [Report (InsufficientData have (data_sz (load_data (img_at s i))))]
       s).

(** [switch(g->compressed)] *)
Definition decompress (E : Env) (s : State) (i : nat) (g : GraphicsCommand)
  : flow :=
  if compressed g =? chr "z" then
    let '(ok, s) :=
      inflate_zlib E s i (IB (load_data (img_at s i)))
        (IB_sz (load_data (img_at s i))) in
    if ok then Go s i else Return (fail_load i s)
  else if compressed g =? 0 then Go s i
  else Return (fail_load i
                 (emit [Report (UnknownCompression (compressed g))] s)).

(** [switch(g->format)] *)
Definition decode (E : Env) (s : State) (i : nat) (g : GraphicsCommand)
  : flow :=
  if format g =? PNG then
    let '(ok, s) := inflate_png E s i (IB (load_data (img_at s i))) in
    if ok then Go s i else Return (fail_load i s)
  else Go s i.

(** From [if (!img->data_loaded) return;] to the end. *)
Definition process (E : Env) (s : State) (i : nat) (g : GraphicsCommand)
  : State :=
  if negb (data_loaded (img_at s i)) then s
  else if negb (compressed g =? 0) || (format g =? PNG) then
    match decompress E s i g with
    | Return s => s
    | Go s i =>
        match decode E s i g with
        | Return s => s
        | Go s i =>
            let s :=
              upd_img i
                (set_load_data (fun ld => set_data (addr <$> buf ld) ld)) s in
            let ld := load_data (img_at s i) in
            if buf_used ld <? data_sz ld then insufficient i (buf_used ld) s
            else s
        end
    end
  else
    let ld := load_data (img_at s i) in
    if transmission g =? chr "d" then
      if buf_used ld <? data_sz ld then insufficient i (buf_used ld) s
      else upd_img i (set_load_data (set_data (addr <$> buf ld))) s
    else
      if mapped_file_sz ld <? data_sz ld
      then insufficient i (mapped_file_sz ld) s
      else upd_img i (set_load_data (set_data (addr <$> mapped_file ld))) s.

(** [if (init_img) { ... } else { ... }]: the image the command is about. *)
Definition resolve_image (s : State) (g : GraphicsCommand) : flow :=
  if init_img s g then start_image s g else continue_image s.

Definition handle_add_command (E : Env) (s : State) (g : GraphicsCommand)
    (payload : list byte) : State :=
  match resolve_image s g with
  | Return s => s
  | Go s i =>
      match acquire E s i g payload with
      | Return s => s
      | Go s i => process E s i g
      end
  end.

Definition grman_handle_command (E : Env) (s : State) (g : GraphicsCommand)
    (payload : list byte) : State :=
  if (action g =? 0) || (action g =? chr "t")
  then handle_add_command E s g payload
  else emit [Report (UnknownAction (action g))] s.

(** * The vocabulary of the properties *)

(** The records a sweep with [predicate] keeps, in their order. *)
Definition kept (predicate : Image -> bool) (l : list Image) : list Image :=
  filter (fun img => predicate img = false) l.

(** What the sweep releases: it visits the array from its end. *)
Definition swept_events (predicate : Image -> bool) (l : list Image)
  : list event :=
  concat ((fun img => fst (free_image img))
            <$> reverse (filter (fun img => predicate img = true) l)).

(** A record whose buffer accounting is sound. *)
Definition rec_ok (r : Image) : Prop :=
  0 <= buf_used (load_data r) <= buf_capacity (load_data r) /\
  buf_capacity (load_data r) < size_mod /\
  0 <= data_sz (load_data r) < size_mod.

(** [touch v file i s s']: from [s] to [s'] only the record [i], the
    pending load, the allocator and the log changed; the record kept its
    identity.  [v] is what the soundness of the accounting relies on, and
    [file] tells whether a file was mapped on the way. *)
Record touch (v : Prop) (file : bool) (i : nat) (s s' : State) : Prop := {
  t_images : images s' = <[i := img_at s' i]> (images s);
  t_client : client_id (img_at s' i) = client_id (img_at s i);
  t_internal : internal_id (img_at s' i) = internal_id (img_at s i);
  t_refcnt : refcnt (img_at s' i) = refcnt (img_at s i);
  t_counter : internal_id_counter s' = internal_id_counter s;
  t_capacity : images_capacity s' = images_capacity s;
  t_addr : next_addr s <= next_addr s';
  t_loading :
    loading_image s' = loading_image s \/ loading_image s' = 0 \/
    (file = false /\ loading_image s' = internal_id (img_at s' i) /\
     data_loaded (img_at s' i) = false);
  t_log : exists evs, log s' = log s ++ evs;
  t_ok : v -> rec_ok (img_at s i) -> rec_ok (img_at s' i);
  t_loaded :
    data_loaded (img_at s' i) = true ->
    data_loaded (img_at s i) = true \/ loading_image s' = 0 \/ file = true
}.

(** [touch] for a stage: it goes on with the same record. *)
Definition flow_touch (v : Prop) (file : bool) (i : nat) (s : State)
    (fl : flow) : Prop :=
  match fl with
  | Return s' => touch v file i s s'
  | Go s' i' => i' = i /\ touch v file i s s'
  end.

(** The flag of a command: whether it maps a file. *)
Definition by_file (g : GraphicsCommand) : bool :=
  negb (transmission g =? chr "d").

(** The scan of find_or_create_image. *)
Definition found (cid : Z) (l : list Image) : option (nat * Image) :=
  if cid =? 0 then None
  else list_find (fun img => client_id img = cid) l.

(** What lines 259-260 leave of an existing record. *)
Definition reset_image (old : Image) : Image :=
  set_data_loaded false
    (set_load_data (fun _ => snd (free_load_data (load_data old))) old).

(** No two slots hold records with the same key [f], among the keys
    that satisfy [P]. *)
Definition unique_by (f : Image -> Z) (P : Z -> Prop) (l : list Image)
  : Prop :=
  forall i j a b,
    l !! i = Some a -> l !! j = Some b -> f a = f b -> P (f a) -> i = j.

(** No two records share a nonzero client id. *)
Definition unique_client_ids : list Image -> Prop :=
  unique_by client_id (fun c => c <> 0).

(** No two records share an internal id. *)
Definition unique_internal_ids : list Image -> Prop :=
  unique_by internal_id (fun _ => True).

(** The invariant of the reachable states: the internal ids of the store
    are positive, distinct and below the counter; nonzero client ids are
    distinct; [loading_image] is below the counter and never names a
    loaded record; the buffer accounting of every record is sound. *)
Record wf (s : State) : Prop := {
  wf_counter : 0 < internal_id_counter s < size_mod;
  wf_issued :
    forall r, r ∈ images s -> 0 < internal_id r < internal_id_counter s;
  wf_internal : unique_internal_ids (images s);
  wf_client : unique_client_ids (images s);
  wf_loading : 0 <= loading_image s < internal_id_counter s;
  wf_pending :
    forall r, r ∈ images s -> internal_id r = loading_image s ->
              data_loaded r = false;
  wf_ok : forall r, r ∈ images s -> rec_ok r
}.

(** The slack of the accumulation buffer ("compression header"). *)
Definition slack (g : GraphicsCommand) : Z :=
  if negb (compressed g =? 0) || (format g =? PNG) then 1024 else 10.

(** The record a direct transmission starts with: the chosen record with
    the declared dimensions, the expected size, and an empty buffer. *)
Definition started (g : GraphicsCommand) (a sz : Z) (aligned : bool)
    (r : Image) : Image :=
  set_load_data
    (set_buf
       (Some {| addr := a;
                bytes := repeat x00
                           (Z.to_nat (wrap_size (wrap_size (sz + slack g) + 4)))
             |})
       0 (wrap_size (sz + slack g)))
    (set_load_data (set_data_sz sz aligned)
       (set_dims (data_width g) (data_height g) r)).

(** The live block of a record that starts at address [a]. *)
Definition block_at (ld : LoadData) (a : Z) : option block :=
  match buf ld with
  | Some b => if addr b =? a then Some b else
      match mapped_file ld with
      | Some m => if addr m =? a then Some m else None
      | None => None
      end
  | None =>
      match mapped_file ld with
      | Some m => if addr m =? a then Some m else None
      | None => None
      end
  end.

(** What a consumer reads through [load_data.data]: [data_sz] bytes. *)
Definition pixel_data (r : Image) : option (list byte) :=
  match data (load_data r) with
  | Some a =>
      match block_at (load_data r) a with
      | Some b => Some (take (Z.to_nat (data_sz (load_data r))) (bytes b))
      | None => None
      end
  | None => None
  end.

(** A command as it reaches grman_handle_command, with the answers the
    system gives while it is processed. *)
Definition command : Type := Env * GraphicsCommand * list byte.

(** One call of grman_handle_command, and a sequence of calls. *)
Definition step (s : State) (c : command) : State :=
  grman_handle_command (fst (fst c)) s (snd (fst c)) (snd c).

Definition run (cmds : list command) (s : State) : State :=
  foldl step s cmds.

(** [case 0: case 't'] of grman_handle_command. *)
Definition is_transmit (g : GraphicsCommand) : Prop :=
  action g = 0 \/ action g = chr "t".

(** The default cases of [switch(g->format)] and of [switch(tt)]. *)
Definition unknown_format (g : GraphicsCommand) : Prop :=
  format g <> PNG /\ format g <> RGB /\ format g <> RGBA.

Definition unknown_medium (g : GraphicsCommand) : Prop :=
  transmission g <> chr "d" /\ transmission g <> chr "f" /\
  transmission g <> chr "t" /\ transmission g <> chr "s".


(** A system without files, and codecs that reject everything. *)
Definition no_files : Env :=
  {| sys_open := fun _ _ => -1;
     sys_lseek_end := fun _ => -1;
     sys_mmap := fun _ _ => None;
     zlib_inflateInit := Z_OK;
     zlib_inflate := fun _ n => (-3, n, []);
     png_read := fun _ => None |}.

(** What it means that the staging state [ld] is released: its buffer is
    freed, its mapping is unmapped, and its descriptor is closed when it
    is positive (0 stands for no descriptor). *)
Definition release_events (ld : LoadData) : list event :=
  match buf ld with Some b => [Free (addr b)] | None => [] end
  ++ match mapped_file ld with
     | Some m => [Munmap (addr m) (mapped_file_sz ld)]
     | None => []
     end
  ++ (if 0 <? fd ld then [Close (fd ld)] else []).

(** The command 't' with the given medium, format, "more" flag, client id
    and dimensions, for the payload [payload]. *)
Definition transmit (medium fmt m cid w h : Z) (payload : list byte)
  : GraphicsCommand :=
  {| action := chr "t"; transmission_type := medium; compressed := 0;
     format := fmt; more := m; id := cid; data_width := w; data_height := h;
     payload_sz := Z.of_nat (length payload) |}.

(** Payloads of 8, 4, 4, 18 and 19 bytes. *)
Definition px8 : list byte := [x01; x02; x03; x04; x05; x06; x07; x08].
Definition px4 : list byte := [x01; x02; x03; x04].
Definition px4' : list byte := [x05; x06; x07; x08].
Definition px18 : list byte := px8 ++ px8 ++ [x11; x12].
Definition px19 : list byte := px18 ++ [x13].

(** The state in which a command has resolved its record. *)
Definition resolved (s : State) (g : GraphicsCommand) : State :=
  match resolve_image s g with
  | Return s' | Go s' _ => s'
  end.

(** One loaded image with client id 5. *)
Definition one_image : State :=
  grman_handle_command no_files grman_new (transmit 0 RGBA 0 5 2 1 px8) px8.

(** A pending load: the first chunk of a direct transmission. *)
Definition pending : State :=
  grman_handle_command no_files grman_new (transmit 0 RGBA 1 0 2 1 px4) px4.

(** [n] transmissions of a loaded image, with the client ids 1 to [n]. *)
Definition distinct_transmissions (n : nat) : list command :=
  (fun k => (no_files, transmit 0 RGBA 0 (Z.of_nat (S k)) 2 1 px8, px8))
    <$> seq 0 n.

(** Three transmissions, the third reusing the client id of the first. *)
Definition three_commands : list command :=
  [ (no_files, transmit 0 RGBA 0 5 2 1 px8, px8);
    (no_files, transmit 0 RGBA 0 6 2 1 px8, px8);
    (no_files, transmit 0 RGBA 0 5 2 1 px8, px8) ].

(** The array has room for its records. *)
Definition has_room (s : State) : Prop :=
  0 < images_capacity s /\ Z.of_nat (length (images s)) <= images_capacity s.

Definition file_medium (g : GraphicsCommand) : Prop :=
  transmission g = chr "f" \/ transmission g = chr "t" \/
  transmission g = chr "s".

(** unlink for a temporary file, shm_unlink for shared memory. *)
Definition unlink_events (g : GraphicsCommand) (payload : list byte)
  : list event :=
  if transmission g =? chr "t" then [Unlink payload]
  else if transmission g =? chr "s" then [ShmUnlink payload]
  else [].

(** The expected size of a known format. *)
Definition expected_size (g : GraphicsCommand) : option (Z * bool) :=
  format_size g (data_width g) (wrap_u32 (data_width g * data_height g)).

(** The record a transmission by file starts with. *)
Definition started_file (g : GraphicsCommand) (sz : Z) (aligned : bool)
    (r : Image) : Image :=
  set_load_data (set_data_sz sz aligned)
    (set_dims (data_width g) (data_height g) r).

(** A system with one file of 8 bytes, opened as descriptor 7. *)
Definition one_file : Env :=
  {| sys_open := fun _ _ => 7;
     sys_lseek_end := fun _ => 8;
     sys_mmap := fun _ _ => Some px8;
     zlib_inflateInit := Z_OK;
     zlib_inflate := fun _ n => (-3, n, []);
     png_read := fun _ => None |}.


(** A system whose files open and cannot be mapped. *)
Definition no_map : Env :=
  {| sys_open := fun _ _ => 7;
     sys_lseek_end := fun _ => 8;
     sys_mmap := fun _ _ => None;
     zlib_inflateInit := Z_OK;
     zlib_inflate := fun _ n => (-3, n, []);
     png_read := fun _ => None |}.

(** A file whose cursor is inside its buffer. *)
Definition fake_file_ok (f : fake_file) : Prop :=
  ff_sz f = Z.of_nat (length (ff_buf f)) /\
  0 <= ff_cur f <= ff_sz f /\ ff_sz f < size_mod.

(** The record [i] is the pending load and has accumulated the bytes
    [bs] in a buffer that is as long as its capacity says. *)
Definition accumulating (s : State) (i : nat) (bs : list byte) : Prop :=
  (i < length (images s))%nat /\
  loading_image s <> 0 /\
  internal_id (img_at s i) = loading_image s /\
  data_loaded (img_at s i) = false /\
  IB (load_data (img_at s i)) = bs /\
  buf_used (load_data (img_at s i)) = Z.of_nat (length bs) /\
  exists b, buf (load_data (img_at s i)) = Some b /\
            buf_capacity (load_data (img_at s i))
            <= Z.of_nat (length (bytes b)).

(** A chunk that is not the last one: a direct transmission with the
    "more" flag, whose payload has the length the command gives. *)
Definition is_chunk (c : command) : Prop :=
  is_transmit (snd (fst c)) /\ transmission (snd (fst c)) = chr "d" /\
  more (snd (fst c)) <> 0 /\
  payload_sz (snd (fst c)) = Z.of_nat (length (snd c)).

(** The payloads of a sequence of commands, in a row. *)
Definition payloads (cmds : list command) : list byte :=
  concat (snd <$> cmds).









(** A direct transmission in one command: no "more" flag, a payload of
    the length the command gives, which fits below the capacity. *)
Definition complete (s : State) (g : GraphicsCommand) (payload : list byte)
    (sz : Z) : Prop :=
  init_img s g = true /\ transmission g = chr "d" /\ more g = 0 /\
  payload_sz g = Z.of_nat (length payload) /\
  payload_sz g < sz + slack g.

(** The record when the payload of a complete transmission is in its
    buffer, whose bytes are [B]. *)
Definition acquired (g : GraphicsCommand) (a sz : Z) (aligned : bool)
    (B : list byte) (r : Image) : Image :=
  set_data_loaded true
    (set_load_data
       (set_buf (Some {| addr := a; bytes := B |}) (payload_sz g)
          (sz + slack g))
       (started_file g sz aligned r)).

(** Equality of byte strings. *)
Definition bytes_eqb (a b : list byte) : bool :=
  (length a =? length b)%nat
  && forallb (fun xy => Byte.eqb (fst xy) (snd xy)) (combine a b).



(** The zlib stream of 16 bytes that holds the 8 bytes of [px8]. *)
Definition deflated_px8 : list byte :=
  [x78; xda; x63; x64; x62; x66; x61; x65; x63; xe7; x00; x00;
   x00; x80; x00; x25].

(** What inflate with Z_FINISH answers on that stream: the end of the
    stream when the output has room for the 8 bytes, Z_BUF_ERROR with a
    full output otherwise; every other input is taken as a data error. *)
Definition zlib_8 : Env :=
  {| sys_open := fun _ _ => -1;
     sys_lseek_end := fun _ => -1;
     sys_mmap := fun _ _ => None;
     zlib_inflateInit := Z_OK;
     zlib_inflate := fun src n =>
       if bytes_eqb src deflated_px8 then
         if 8 <=? n then (Z_STREAM_END, n - 8, px8)
         else (-5, 0, take (Z.to_nat n) px8)
       else (-3, n, []);
     png_read := fun _ => None |}.

(** The command [transmit] with the compression 'z'. *)
Definition deflated (g : GraphicsCommand) : GraphicsCommand :=
  {| action := action g; transmission_type := transmission_type g;
     compressed := chr "z"; format := format g; more := more g; id := id g;
     data_width := data_width g; data_height := data_height g;
     payload_sz := payload_sz g |}.

(** An RGBA image of 2 by 536870913 pixels, 2^32 + 8 bytes, sent directly
    as the deflate stream [deflated_px8]. *)
Definition huge_deflated : GraphicsCommand :=
  deflated (transmit 0 RGBA 0 5 2 536870913 deflated_px8).

(** The array has room for [n] more records. *)
Definition room_for (n : nat) (s : State) : Prop :=
  Z.of_nat (length (images s)) + Z.of_nat n <= images_capacity s.

(** The command appends a record to a full array: it starts a new
    transmission, finds no record of its client id among the records the
    sweep keeps, and those fill the array. *)
Definition appends_to_full (s : State) (g : GraphicsCommand) : Prop :=
  is_transmit g /\ init_img s g = true /\
  found (id g) (kept add_trim_predicate (images s)) = None /\
  images_capacity s <= Z.of_nat (length (kept add_trim_predicate (images s))).

(** * Properties *)

(** ** Machine arithmetic *)

Lemma wrap_size_range z : 0 <= wrap_size z < size_mod.
Proof. unfold wrap_size. apply Z.mod_pos_bound. reflexivity. Qed.

Lemma wrap_size_small z : 0 <= z < size_mod -> wrap_size z = z.
Proof. intros H. unfold wrap_size. apply Z.mod_small, H. Qed.

Lemma wrap_u32_range z : 0 <= wrap_u32 z < u32_mod.
Proof. unfold wrap_u32. apply Z.mod_pos_bound. reflexivity. Qed.

Lemma wrap_u32_small z : 0 <= z < u32_mod -> wrap_u32 z = z.
Proof. intros H. unfold wrap_u32. apply Z.mod_small, H. Qed.


(** ** Reading the state after an update *)

Ltac st_simpl :=
  cbn [images images_capacity loading_image internal_id_counter next_addr log
       upd_img set_images set_images_capacity set_loading_image
       set_internal_id_counter set_next_addr emit malloc fail_load
       insufficient fst snd] in *.

Ltac st_unfold :=
  unfold upd_img, set_images, set_images_capacity, set_loading_image,
    set_internal_id_counter, set_next_addr, emit, malloc, fail_load,
    insufficient in *;
  st_simpl.

Ltac img_simpl :=
  cbn [client_id width height internal_id refcnt data_loaded load_data
       buf is_4byte_aligned buf_capacity buf_used mapped_file mapped_file_sz
       data_sz data fd set_buf set_mapped_file set_fd set_data set_data_sz
       set_load_data set_data_loaded set_ids set_dims free_load_data
       free_image fst snd] in *.

Lemma img_at_lookup s i r : images s !! i = Some r -> img_at s i = r.
Proof. unfold img_at. intros ->. reflexivity. Qed.

Lemma lookup_img_at s i : (i < length (images s))%nat ->
  images s !! i = Some (img_at s i).
Proof.
  intros H. unfold img_at.
  destruct (lookup_lt_is_Some_2 (images s) i H) as [r ->]. reflexivity.
Qed.

Lemma alter_as_insert (f : Image -> Image) i (l : list Image) :
  alter f i l = <[i := f (default zero_image (l !! i))]> l.
Proof.
  revert i. induction l as [|x l IH]; intros [|i]; cbn; try reflexivity.
  f_equal. apply IH.
Qed.

Lemma images_upd_img s i f :
  images (upd_img i f s) = <[i := f (img_at s i)]> (images s).
Proof. st_simpl. apply alter_as_insert. Qed.

Lemma img_at_upd_img s i f : (i < length (images s))%nat ->
  img_at (upd_img i f s) i = f (img_at s i).
Proof.
  intros H. unfold img_at at 1. rewrite images_upd_img.
  rewrite list_lookup_insert_eq by exact H. reflexivity.
Qed.

Lemma length_upd_img s i f :
  length (images (upd_img i f s)) = length (images s).
Proof. st_simpl. apply length_alter. Qed.

(** ** The sweep *)

Lemma kept_app p l k : kept p (l ++ k) = kept p l ++ kept p k.
Proof. apply filter_app. Qed.

Lemma kept_snoc p l x :
  kept p (l ++ [x]) = if p x then kept p l else kept p l ++ [x].
Proof.
  rewrite kept_app. unfold kept at 2. rewrite filter_cons, filter_nil.
  destruct (p x); cbn.
  - rewrite decide_False by discriminate. apply app_nil_r.
  - rewrite decide_True by reflexivity. reflexivity.
Qed.

Lemma swept_events_snoc p l x :
  swept_events p (l ++ [x]) =
  (if p x then fst (free_image x) else []) ++ swept_events p l.
Proof.
  unfold swept_events. rewrite filter_app, filter_cons, filter_nil.
  destruct (p x); cbn.
  - rewrite decide_True by reflexivity.
    rewrite reverse_app. cbn. reflexivity.
  - rewrite decide_False by discriminate. rewrite app_nil_r. reflexivity.
Qed.

Lemma remove_images_from_spec p i s :
  remove_images_from p i s =
  emit (swept_events p (take i (images s)))
    (set_images (fun l => kept p (take i l) ++ drop i l) s).
Proof.
  revert s. induction i as [|j IH]; intros s.
  - destruct s; st_unfold. rewrite take_0, drop_0.
    unfold kept, swept_events. rewrite !filter_nil.
    cbn [reverse rev_append fmap list_fmap concat app].
    rewrite app_nil_r. reflexivity.
  - cbn [remove_images_from]. rewrite IH. clear IH.
    destruct s as [l c li ic na lg]; st_simpl.
    destruct (l !! j) as [img|] eqn:Hj.
    + assert (Hlen : length (take j l) = j).
      { apply length_take_le. apply lookup_lt_Some in Hj. lia. }
      destruct (p img) eqn:Hp; st_unfold;
        rewrite (take_S_r _ _ _ Hj), kept_snoc, swept_events_snoc, Hp.
      * unfold remove_from_array. rewrite delete_take_drop.
        rewrite take_app_length' by (symmetry; exact Hlen).
        rewrite drop_app_length' by (symmetry; exact Hlen).
        rewrite <- app_assoc. reflexivity.
      * rewrite (drop_S _ _ _ Hj), <- app_assoc. reflexivity.
    + apply lookup_ge_None in Hj. st_unfold.
      rewrite (take_ge _ (S j)) by lia. rewrite (take_ge _ j) by lia.
      rewrite (drop_ge _ (S j)) by lia. rewrite (drop_ge _ j) by lia.
      reflexivity.
Qed.

Lemma remove_images_spec p s :
  remove_images p s =
  emit (swept_events p (images s)) (set_images (kept p) s).
Proof.
  unfold remove_images. rewrite remove_images_from_spec.
  rewrite firstn_all. destruct s; st_unfold.
  rewrite firstn_all, drop_all, app_nil_r. reflexivity.
Qed.

(** ** Work on one record *)

Lemma insert_img_at s i : images s = <[i := img_at s i]> (images s).
Proof.
  unfold img_at. destruct (images s !! i) as [r|] eqn:H; cbn.
  - symmetry. apply list_insert_id, H.
  - symmetry. apply list_insert_ge. apply lookup_ge_None, H.
Qed.

Lemma touch_refl v file i s : touch v file i s s.
Proof.
  split; auto using insert_img_at; try lia.
  exists []. symmetry. apply app_nil_r.
Qed.

Lemma touch_trans v file i s1 s2 s3 :
  touch v file i s1 s2 -> touch v file i s2 s3 -> touch v file i s1 s3.
Proof.
  intros [A1 A2 A3 A4 A5 A6 A7 A8 [e1 A9] A10 A11]
         [B1 B2 B3 B4 B5 B6 B7 B8 [e2 B9] B10 B11].
  split; try congruence; try lia; auto.
  - rewrite B1, A1. apply list_insert_insert_eq.
  - destruct B8 as [B8|[B8|(Hf & B8 & B8')]]; auto.
    + rewrite B8. destruct A8 as [A8|[A8|(Hf & A8 & A8')]]; auto.
      destruct (data_loaded (img_at s3 i)) eqn:Hd.
      * destruct (B11 eq_refl) as [C|[C|C]]; [congruence| |congruence].
        right; left. congruence.
      * right; right. split; [exact Hf|]. split; congruence.
  - exists (e1 ++ e2). rewrite B9, A9. symmetry. apply app_assoc.
  - intros Hd. destruct (B11 Hd) as [C|[C|C]]; auto.
    destruct (A11 C) as [D|[D|D]]; auto.
    destruct B8 as [B8|[B8|(Hf & B8 & B8')]]; [|auto|congruence].
    right; left. congruence.
Qed.

Lemma touch_emit v file i s evs : touch v file i s (emit evs s).
Proof.
  split; unfold img_at; st_simpl; fold (img_at s i);
    auto using insert_img_at; try lia.
  exists evs. reflexivity.
Qed.

Lemma touch_alloc v file i s a :
  next_addr s <= a -> touch v file i s (set_next_addr a s).
Proof.
  intros Ha. split; unfold img_at; st_simpl; fold (img_at s i);
    auto using insert_img_at; try lia.
  exists []. symmetry. apply app_nil_r.
Qed.

Lemma touch_idle v file i s : touch v file i s (set_loading_image 0 s).
Proof.
  split; unfold img_at; st_simpl; fold (img_at s i);
    auto using insert_img_at; try lia.
  exists []. symmetry. apply app_nil_r.
Qed.

(** An assignment through [img] that keeps the identity of the record. *)
Lemma touch_upd v file i s f :
  (i < length (images s))%nat ->
  client_id (f (img_at s i)) = client_id (img_at s i) ->
  internal_id (f (img_at s i)) = internal_id (img_at s i) ->
  refcnt (f (img_at s i)) = refcnt (img_at s i) ->
  (v -> rec_ok (img_at s i) -> rec_ok (f (img_at s i))) ->
  (data_loaded (f (img_at s i)) = true ->
   data_loaded (img_at s i) = true \/ file = true) ->
  touch v file i s (upd_img i f s).
Proof.
  intros Hi H1 H2 H3 H4 H5.
  split; rewrite ?img_at_upd_img by exact Hi; auto; try (st_simpl; lia).
  - rewrite images_upd_img. reflexivity.
  - exists []. st_simpl. symmetry. apply app_nil_r.
  - intros Hd. destruct (H5 Hd); auto.
Qed.

(** The end of a direct load: the record is loaded and the pending load is
    cleared in one go. *)
Lemma touch_upd_idle v file i s f :
  (i < length (images s))%nat ->
  client_id (f (img_at s i)) = client_id (img_at s i) ->
  internal_id (f (img_at s i)) = internal_id (img_at s i) ->
  refcnt (f (img_at s i)) = refcnt (img_at s i) ->
  (v -> rec_ok (img_at s i) -> rec_ok (f (img_at s i))) ->
  touch v file i s (set_loading_image 0 (upd_img i f s)).
Proof.
  intros Hi H1 H2 H3 H4.
  assert (E : img_at (set_loading_image 0 (upd_img i f s)) i
              = f (img_at s i)).
  { rewrite <- (img_at_upd_img s i f Hi). reflexivity. }
  split; rewrite ?E; auto; try (st_simpl; lia).
  - change (images (set_loading_image 0 (upd_img i f s)))
      with (images (upd_img i f s)).
    rewrite images_upd_img. reflexivity.
  - exists []. st_simpl. symmetry. apply app_nil_r.
Qed.

(** The start of a multi-chunk load. *)
Lemma touch_pending v i s :
  data_loaded (img_at s i) = false ->
  touch v false i s (set_loading_image (internal_id (img_at s i)) s).
Proof.
  intros Hd. split; unfold img_at; st_simpl; fold (img_at s i);
    auto using insert_img_at; try lia.
  - exists []. symmetry. apply app_nil_r.
Qed.

Lemma touch_length v file i s s' :
  touch v file i s s' -> length (images s') = length (images s).
Proof. intros [H _ _ _ _ _ _ _ _ _ _]. rewrite H. apply length_insert. Qed.

(** ** The stages of handle_add_command work on one record *)

Lemma img_at_emit evs s i : img_at (emit evs s) i = img_at s i.
Proof. reflexivity. Qed.

Lemma img_at_set_loading_image l s i :
  img_at (set_loading_image l s) i = img_at s i.
Proof. reflexivity. Qed.

Lemma img_at_set_next_addr a s i : img_at (set_next_addr a s) i = img_at s i.
Proof. reflexivity. Qed.

Lemma img_at_set_internal_id_counter c s i :
  img_at (set_internal_id_counter c s) i = img_at s i.
Proof. reflexivity. Qed.

Ltac len := st_simpl; rewrite ?length_alter; first [assumption | lia].

Ltac norm :=
  repeat first
    [ rewrite img_at_emit
    | rewrite img_at_set_loading_image
    | rewrite img_at_set_next_addr
    | rewrite img_at_set_internal_id_counter
    | rewrite img_at_upd_img by len ];
  st_simpl; img_simpl.

(** Splits a nest of assignments into its steps. *)
Ltac touch_steps :=
  lazymatch goal with
  | |- touch _ _ _ ?s ?s => apply touch_refl
  | |- touch _ _ _ ?s (emit _ ?s') =>
      apply (touch_trans _ _ _ s s'); [touch_steps | apply touch_emit]
  | |- touch _ _ _ ?s (set_next_addr _ ?s') =>
      apply (touch_trans _ _ _ s s');
      [touch_steps | apply touch_alloc; st_simpl; lia]
  | |- touch _ _ _ ?s (set_loading_image 0 (upd_img _ _ ?s')) =>
      apply (touch_trans _ _ _ s s');
      [touch_steps | apply touch_upd_idle; [len | norm ..]]
  | |- touch _ _ _ ?s (set_loading_image 0 ?s') =>
      apply (touch_trans _ _ _ s s'); [touch_steps | apply touch_idle]
  | |- touch _ _ _ ?s (upd_img _ _ ?s') =>
      apply (touch_trans _ _ _ s s');
      [touch_steps | apply touch_upd; [len | norm ..]]
  | |- _ => idtac
  end.

Lemma mmap_img_file_touch v file E s i :
  (i < length (images s))%nat ->
  touch v file i s (snd (mmap_img_file E s i)).
Proof.
  intros Hi. unfold mmap_img_file.
  destruct (_ =? -1); [apply touch_emit|].
  destruct (sys_mmap _ _ _); [|apply touch_emit].
  cbn [malloc snd]. touch_steps; auto.
Qed.

Lemma mmap_img_file_length E s i :
  length (images (snd (mmap_img_file E s i))) = length (images s).
Proof.
  unfold mmap_img_file.
  destruct (_ =? -1); [reflexivity|].
  destruct (sys_mmap _ _ _); [|reflexivity].
  cbn [malloc snd]. len.
Qed.

Lemma inflate_zlib_touch v file E s i src bufsz :
  (i < length (images s))%nat ->
  touch v file i s (snd (inflate_zlib E s i src bufsz)).
Proof.
  intros Hi. unfold inflate_zlib. cbn [malloc].
  destruct (negb (_ =? Z_OK)); [cbn [snd]; touch_steps|].
  destruct (zlib_inflate _ _ _) as [[ret avail_out] out].
  destruct (negb (ret =? _)); [cbn [snd]; touch_steps|].
  destruct (negb (avail_out =? 0)) eqn:Ha; [cbn [snd]; touch_steps|].
  apply negb_false_iff, Z.eqb_eq in Ha. subst avail_out.
  cbn [free_load_data snd]. touch_steps; auto.
  intros _ (_ & _ & Hd). unfold rec_ok. img_simpl.
  rewrite Z.sub_0_r, wrap_size_small by exact Hd. lia.
Qed.

Lemma inflate_zlib_length E s i src bufsz :
  length (images (snd (inflate_zlib E s i src bufsz))) = length (images s).
Proof.
  unfold inflate_zlib. cbn [malloc].
  destruct (negb (_ =? Z_OK)); [reflexivity|].
  destruct (zlib_inflate _ _ _) as [[ret avail_out] out].
  destruct (negb (ret =? _)); [reflexivity|].
  destruct (negb (avail_out =? 0)); [reflexivity|].
  cbn [free_load_data snd]. len.
Qed.

Lemma inflate_png_touch v file E s i src :
  (i < length (images s))%nat ->
  touch v file i s (snd (inflate_png E s i src)).
Proof.
  intros Hi. unfold inflate_png.
  destruct (png_read _ _) as [p|]; [|cbn [snd]; touch_steps].
  destruct (int_wrap _ =? _), (png_complete p);
    cbn [malloc free_load_data snd]; touch_steps; auto;
    intros _ (_ & _ & Hd); unfold rec_ok; img_simpl;
    pose proof (wrap_size_range
                  (int_wrap (png_rowbytes p * png_height p))); lia.
Qed.

Lemma inflate_png_length E s i src :
  length (images (snd (inflate_png E s i src))) = length (images s).
Proof.
  unfold inflate_png.
  destruct (png_read _ _) as [p|]; [|reflexivity].
  destruct (int_wrap _ =? _), (png_complete p);
    cbn [malloc free_load_data snd]; len.
Qed.

Lemma acquire_direct_touch s i g payload :
  (i < length (images s))%nat ->
  flow_touch (0 <= payload_sz g) false i s (acquire_direct s i g payload).
Proof.
  intros Hi. unfold acquire_direct.
  destruct (_ >=? _) eqn:Hsz; cbn [flow_touch]; [touch_steps|].
  split; [reflexivity|].
  assert (Hok : 0 <= payload_sz g -> rec_ok (img_at s i) ->
    rec_ok (set_load_data
      (set_buf
        ((fun b : block =>
            {| addr := addr b;
               bytes := memcpy_at (bytes b)
                          (Z.to_nat (buf_used (load_data (img_at s i))))
                          payload (Z.to_nat (payload_sz g)) |})
           <$> buf (load_data (img_at s i)))
        (wrap_size (buf_used (load_data (img_at s i)) + payload_sz g))
        (buf_capacity (load_data (img_at s i)))) (img_at s i))).
  { intros Hp (Hu & Hc & Hd). unfold rec_ok. img_simpl.
    rewrite Z.geb_leb in Hsz. apply Z.leb_gt in Hsz.
    rewrite wrap_size_small in Hsz by lia.
    rewrite wrap_size_small by lia. lia. }
  destruct (more g =? 0); touch_steps; auto.
Qed.

Lemma acquire_direct_length s i g payload :
  match acquire_direct s i g payload with
  | Return s' | Go s' _ => length (images s') = length (images s)
  end.
Proof.
  unfold acquire_direct.
  destruct (_ >=? _); [reflexivity|]. destruct (more g =? 0); len.
Qed.

Lemma acquire_file_touch v E s i tt payload :
  (i < length (images s))%nat ->
  flow_touch v true i s (acquire_file E s i tt payload).
Proof.
  intros Hi. unfold acquire_file.
  destruct (_ =? -1); cbn [flow_touch]; [touch_steps|].
  destruct (mmap_img_file _ _ _) as [ok s1] eqn:Hm.
  assert (T : touch v true i (upd_img i (set_load_data
                (set_fd (sys_open E (tt =? chr "s") payload))) s) s1).
  { replace s1 with (snd (mmap_img_file E
      (upd_img i (set_load_data
         (set_fd (sys_open E (tt =? chr "s") payload))) s) i))
      by (rewrite Hm; reflexivity).
    apply mmap_img_file_touch. len. }
  assert (L : (i < length (images s1))%nat).
  { rewrite (touch_length _ _ _ _ _ T). len. }
  split; [reflexivity|].
  assert (T0 : touch v true i s (upd_img i (set_load_data
                (set_fd (sys_open E (tt =? chr "s") payload))) s)).
  { apply touch_upd; auto. }
  apply (touch_trans _ _ _ _ _ _ (touch_trans _ _ _ _ _ _ T0 T)).
  destruct (tt =? chr "t"); [|destruct (tt =? chr "s")]; touch_steps; auto.
Qed.

Lemma acquire_file_length E s i tt payload :
  match acquire_file E s i tt payload with
  | Return s' | Go s' _ => length (images s') = length (images s)
  end.
Proof.
  unfold acquire_file.
  destruct (_ =? -1); [reflexivity|].
  destruct (mmap_img_file _ _ _) as [ok s1] eqn:Hm.
  assert (L : length (images s1) = length (images s)).
  { replace s1 with (snd (mmap_img_file E
      (upd_img i (set_load_data
         (set_fd (sys_open E (tt =? chr "s") payload))) s) i))
      by (rewrite Hm; reflexivity).
    rewrite mmap_img_file_length. len. }
  destruct (tt =? chr "t"); [|destruct (tt =? chr "s")]; len.
Qed.

Lemma flow_touch_length v file i s fl :
  flow_touch v file i s fl ->
  match fl with
  | Return s' | Go s' _ => length (images s') = length (images s)
  end.
Proof. destruct fl; cbn; [|intros [_ H]]; eauto using touch_length. Qed.

Lemma acquire_touch E s i g payload :
  (i < length (images s))%nat ->
  flow_touch (0 <= payload_sz g) (by_file g) i s (acquire E s i g payload).
Proof.
  intros Hi. unfold acquire, by_file.
  destruct (transmission g =? chr "d"); cbn [negb].
  - apply acquire_direct_touch, Hi.
  - destruct (_ || _).
    + apply acquire_file_touch, Hi.
    + cbn [flow_touch]. touch_steps.
Qed.

Lemma decompress_touch v file E s i g :
  (i < length (images s))%nat ->
  flow_touch v file i s (decompress E s i g).
Proof.
  intros Hi. unfold decompress.
  destruct (compressed g =? chr "z").
  - destruct (inflate_zlib _ _ _ _ _) as [ok s1] eqn:Hz.
    assert (T : touch v file i s s1).
    { replace s1 with (snd (inflate_zlib E s i (IB (load_data (img_at s i)))
                              (IB_sz (load_data (img_at s i)))))
        by (rewrite Hz; reflexivity).
      apply inflate_zlib_touch, Hi. }
    assert (L : (i < length (images s1))%nat).
    { rewrite (touch_length _ _ _ _ _ T). exact Hi. }
    destruct ok; cbn [flow_touch]; [split; [reflexivity|exact T]|].
    eapply touch_trans; [exact T|]. unfold fail_load.
    apply touch_upd; auto. discriminate.
  - destruct (compressed g =? 0); cbn [flow_touch].
    + split; [reflexivity|apply touch_refl].
    + unfold fail_load. touch_steps; auto. discriminate.
Qed.

Lemma decode_touch v file E s i g :
  (i < length (images s))%nat ->
  flow_touch v file i s (decode E s i g).
Proof.
  intros Hi. unfold decode.
  destruct (format g =? PNG).
  - destruct (inflate_png _ _ _ _) as [ok s1] eqn:Hz.
    assert (T : touch v file i s s1).
    { replace s1 with (snd (inflate_png E s i (IB (load_data (img_at s i)))))
        by (rewrite Hz; reflexivity).
      apply inflate_png_touch, Hi. }
    assert (L : (i < length (images s1))%nat).
    { rewrite (touch_length _ _ _ _ _ T). exact Hi. }
    destruct ok; cbn [flow_touch]; [split; [reflexivity|exact T]|].
    eapply touch_trans; [exact T|]. unfold fail_load.
    apply touch_upd; auto. discriminate.
  - cbn [flow_touch]. split; [reflexivity|apply touch_refl].
Qed.

Lemma insufficient_touch v file s i have :
  (i < length (images s))%nat ->
  touch v file i s (insufficient i have s).
Proof.
  intros Hi. unfold insufficient, fail_load. touch_steps; auto. discriminate.
Qed.

Lemma process_touch v file E s i g :
  (i < length (images s))%nat ->
  touch v file i s (process E s i g).
Proof.
  intros Hi. unfold process.
  destruct (negb (data_loaded _)); [apply touch_refl|].
  destruct (_ || _).
  - pose proof (decompress_touch v file E s i g Hi) as T1.
    pose proof (flow_touch_length _ _ _ _ _ T1) as L1.
    destruct (decompress E s i g) as [s1|s1 i1]; [exact T1|].
    destruct T1 as [-> T1]. rewrite <- L1 in Hi.
    pose proof (decode_touch v file E s1 i g Hi) as T2.
    pose proof (flow_touch_length _ _ _ _ _ T2) as L2.
    destruct (decode E s1 i g) as [s2|s2 i2];
      [exact (touch_trans _ _ _ _ _ _ T1 T2)|].
    destruct T2 as [-> T2]. rewrite <- L2 in Hi.
    apply (touch_trans _ _ _ _ _ _ (touch_trans _ _ _ _ _ _ T1 T2)).
    match goal with |- context [if ?c then _ else _] => destruct c end.
    + eapply touch_trans; [|apply insufficient_touch; len].
      touch_steps; auto.
    + touch_steps; auto.
  - destruct (transmission g =? chr "d");
      match goal with |- context [if ?c then _ else _] => destruct c end;
      try (apply insufficient_touch, Hi); touch_steps; auto.
Qed.

(** ** The choice of the record *)

Lemma found_Some cid l i r :
  found cid l = Some (i, r) ->
  cid <> 0 /\ l !! i = Some r /\ client_id r = cid /\
  forall j r', l !! j = Some r' -> (j < i)%nat -> client_id r' <> cid.
Proof.
  unfold found. destruct (Z.eqb_spec cid 0) as [|Hc]; [discriminate|].
  intros H. apply list_find_Some in H. destruct H as (H1 & H2 & H3).
  repeat split; eauto.
Qed.

Lemma found_None cid l :
  found cid l = None ->
  cid = 0 \/ forall r, r ∈ l -> client_id r <> cid.
Proof.
  unfold found. destruct (Z.eqb_spec cid 0) as [|Hc]; [auto|].
  intros H. right. intros r Hr.
  apply list_find_None in H. rewrite Forall_forall in H. exact (H r Hr).
Qed.

Lemma find_or_create_image_found s cid i r :
  found cid (images s) = Some (i, r) ->
  find_or_create_image s cid = (s, i, true).
Proof. unfold found, find_or_create_image. intros ->. reflexivity. Qed.

Lemma find_or_create_image_new s cid :
  found cid (images s) = None ->
  find_or_create_image s cid =
  (set_images (fun l => l ++ [zero_image])
     (emit
        (snd (ensure_space (images_capacity s)
                (Z.of_nat (length (images s)))))
        (set_images_capacity
           (fst (ensure_space (images_capacity s)
                   (Z.of_nat (length (images s))))) s)),
   length (images s), false).
Proof. unfold found, find_or_create_image. intros ->. reflexivity. Qed.

Lemma target_image_existing s g i old :
  found (id g) (kept add_trim_predicate (images s)) = Some (i, old) ->
  target_image s g =
  (upd_img i (fun _ => reset_image old)
     (emit (swept_events add_trim_predicate (images s)
            ++ fst (free_load_data (load_data old)))
        (set_images (kept add_trim_predicate) s)), i).
Proof.
  intros H. unfold target_image. rewrite remove_images_spec.
  rewrite (find_or_create_image_found _ _ i old) by exact H.
  apply found_Some in H. destruct H as (_ & Hl & _ & _).
  rewrite (img_at_lookup _ i old) by exact Hl.
  cbn [free_load_data]. f_equal. destruct s; st_unfold.
  rewrite <- app_assoc. f_equal. unfold reset_image.
  apply list_alter_ext; [|reflexivity].
  intros r Hr. cbn in Hl. rewrite Hl in Hr. injection Hr as <-. reflexivity.
Qed.

Lemma target_image_new s g :
  found (id g) (kept add_trim_predicate (images s)) = None ->
  target_image s g =
  (set_internal_id_counter (wrap_size (internal_id_counter s + 1))
     (emit
        (snd (ensure_space (images_capacity s)
                (Z.of_nat (length (kept add_trim_predicate (images s))))))
        (set_images_capacity
           (fst (ensure_space (images_capacity s)
                   (Z.of_nat (length (kept add_trim_predicate (images s))))))
           (emit (swept_events add_trim_predicate (images s))
              (set_images
                 (fun l =>
                    kept add_trim_predicate l
                    ++ [set_ids (internal_id_counter s) (id g) zero_image])
                 s)))),
   length (kept add_trim_predicate (images s))).
Proof.
  intros H. unfold target_image. rewrite remove_images_spec.
  rewrite find_or_create_image_new by exact H.
  f_equal. destruct s; st_unfold. f_equal.
  rewrite alter_app_r_alt by reflexivity.
  rewrite Nat.sub_diag. reflexivity.
Qed.

(** The record chosen for a new transmission. *)
Lemma target_image_spec s g s1 i :
  target_image s g = (s1, i) ->
  (i < length (images s1))%nat /\
  data_loaded (img_at s1 i) = false /\
  client_id (img_at s1 i) = id g /\
  buf (load_data (img_at s1 i)) = None /\
  buf_used (load_data (img_at s1 i)) = 0 /\
  buf_capacity (load_data (img_at s1 i)) = 0 /\
  mapped_file (load_data (img_at s1 i)) = None /\
  loading_image s1 = loading_image s /\
  next_addr s1 = next_addr s /\
  ((exists old,
      found (id g) (kept add_trim_predicate (images s)) = Some (i, old) /\
      images s1 = <[i := reset_image old]> (kept add_trim_predicate (images s))
      /\ internal_id_counter s1 = internal_id_counter s) \/
   (found (id g) (kept add_trim_predicate (images s)) = None /\
    images s1 = kept add_trim_predicate (images s)
                ++ [set_ids (internal_id_counter s) (id g) zero_image] /\
    i = length (kept add_trim_predicate (images s)) /\
    internal_id_counter s1 = wrap_size (internal_id_counter s + 1))).
Proof.
  destruct (found (id g) (kept add_trim_predicate (images s)))
    as [[j old]|] eqn:Hf.
  - rewrite (target_image_existing _ _ _ _ Hf).
    intros Heq. apply pair_equal_spec in Heq as [<- <-].
    pose proof (found_Some _ _ _ _ Hf) as (Hc & Hl & Hid & _).
    assert (Hj : (j < length (kept add_trim_predicate (images s)))%nat)
      by (eapply lookup_lt_Some; eauto).
    assert (Hat : img_at
      (upd_img j (fun _ => reset_image old)
         (emit (swept_events add_trim_predicate (images s)
                ++ fst (free_load_data (load_data old)))
            (set_images (kept add_trim_predicate) s))) j = reset_image old).
    { rewrite img_at_upd_img by len. reflexivity. }
    rewrite Hat. split; [len|]. repeat split; auto.
    left. exists old. repeat split; auto.
    rewrite images_upd_img. reflexivity.
  - rewrite (target_image_new _ _ Hf).
    intros Heq. apply pair_equal_spec in Heq as [<- <-].
    assert (Hat : forall c e' k e,
      img_at (set_internal_id_counter c (emit e' (set_images_capacity k (emit e
        (set_images (fun l => kept add_trim_predicate l
           ++ [set_ids (internal_id_counter s) (id g) zero_image]) s)))))
        (length (kept add_trim_predicate (images s)))
      = set_ids (internal_id_counter s) (id g) zero_image).
    { intros. unfold img_at. st_simpl.
      rewrite lookup_app_r, Nat.sub_diag by lia. reflexivity. }
    rewrite Hat. split; [st_simpl; rewrite length_app; cbn; lia|].
    repeat split; auto.
Qed.

Lemma target_image_fd s g st i :
  target_image s g = (st, i) -> fd (load_data (img_at st i)) <= 0.
Proof.
  intros Ht.
  destruct (target_image_spec _ _ _ _ Ht)
    as (Hi & _ & _ & _ & _ & _ & _ & _ & _ &
        [(old & _ & Heq & _)|(_ & Heq & -> & _)]).
  - unfold img_at. rewrite Heq in Hi |- *.
    rewrite length_insert in Hi.
    rewrite list_lookup_insert_eq by exact Hi. cbn. lia.
  - unfold img_at. rewrite Heq.
    rewrite lookup_app_r, Nat.sub_diag by lia. cbn. lia.
Qed.

Lemma format_size_range g w sz sz' aligned :
  format_size g w sz = Some (sz', aligned) -> 0 <= sz' < size_mod.
Proof.
  unfold format_size.
  destruct (format g =? PNG); [intros [= <- _]; apply wrap_size_range|].
  destruct (_ || _); [intros [= <- _]; apply wrap_size_range|discriminate].
Qed.

Lemma rec_ok_set_data_sz sz aligned r :
  0 <= sz < size_mod -> rec_ok r ->
  rec_ok (set_load_data (set_data_sz sz aligned) r).
Proof. intros Hsz (Hu & Hc & _). unfold rec_ok. img_simpl. lia. Qed.

Lemma rec_ok_set_buf_empty b cap r :
  0 <= cap < size_mod -> rec_ok r ->
  rec_ok (set_load_data (set_buf b 0 cap) r).
Proof. intros Hcap (_ & _ & Hd). unfold rec_ok. img_simpl. lia. Qed.

Lemma start_image_touch v s g s1 i :
  target_image s g = (s1, i) ->
  flow_touch v (by_file g) i s1 (start_image s g).
Proof.
  intros Ht. unfold start_image. rewrite Ht.
  destruct (target_image_spec _ _ _ _ Ht) as (Hi & Hd & _).
  destruct (format_size _ _ _) as [[sz aligned]|] eqn:Hsz.
  2:{ cbn [flow_touch]. touch_steps; auto. }
  apply format_size_range in Hsz. unfold by_file.
  destruct (transmission g =? chr "d"); cbn [negb malloc flow_touch].
  2:{ split; [reflexivity|].
      touch_steps; auto using rec_ok_set_data_sz. }
  split; [reflexivity|].
  match goal with |- context [wrap_size (sz + ?k)] =>
    pose proof (wrap_size_range (sz + k)) as Hcap end.
  assert (T : touch v false i s1
    (upd_img i (set_load_data (set_data_sz sz aligned))
       (upd_img i (set_dims (data_width g) (data_height g)) s1))).
  { touch_steps; auto using rec_ok_set_data_sz. }
  destruct (negb (more g =? 0)).
  - touch_steps; auto using rec_ok_set_buf_empty.
    eapply touch_trans; [exact T|]. apply touch_pending. norm. exact Hd.
  - touch_steps; auto using rec_ok_set_buf_empty, rec_ok_set_data_sz.
Qed.

(** After the record is chosen, a new transmission works on it alone. *)
Lemma handle_add_command_new E s g payload s1 i :
  init_img s g = true ->
  target_image s g = (s1, i) ->
  touch (0 <= payload_sz g) (by_file g) i s1
    (handle_add_command E s g payload).
Proof.
  intros Hn Ht. unfold handle_add_command, resolve_image. rewrite Hn.
  pose proof (start_image_touch (0 <= payload_sz g) _ _ _ _ Ht) as T1.
  pose proof (flow_touch_length _ _ _ _ _ T1) as L1.
  destruct (target_image_spec _ _ _ _ Ht) as (Hi & _).
  destruct (start_image s g) as [s2|s2 i2]; [exact T1|].
  destruct T1 as [-> T1]. rewrite <- L1 in Hi.
  pose proof (acquire_touch E s2 i g payload Hi) as T2.
  pose proof (flow_touch_length _ _ _ _ _ T2) as L2.
  destruct (acquire E s2 i g payload) as [s3|s3 i3];
    [exact (touch_trans _ _ _ _ _ _ T1 T2)|].
  destruct T2 as [-> T2]. rewrite <- L2 in Hi.
  exact (touch_trans _ _ _ _ _ _ (touch_trans _ _ _ _ _ _ T1 T2)
           (process_touch _ _ E s3 i g Hi)).
Qed.

(** A continuation chunk works on the record of the pending load, or, when
    that record is gone, only clears the pending load. *)
Lemma img_by_internal_id_Some s iid i :
  img_by_internal_id s iid = Some i ->
  (i < length (images s))%nat /\ internal_id (img_at s i) = iid /\
  forall j r, images s !! j = Some r -> (j < i)%nat -> internal_id r <> iid.
Proof.
  unfold img_by_internal_id.
  destruct (list_find _ _) as [[j r]|] eqn:H; [|discriminate].
  intros [= <-]. apply list_find_Some in H. destruct H as (H1 & H2 & H3).
  split; [eapply lookup_lt_Some; eauto|].
  split; [rewrite (img_at_lookup _ _ _ H1); exact H2|]. eauto.
Qed.

Lemma img_by_internal_id_None s iid :
  img_by_internal_id s iid = None ->
  forall r, r ∈ images s -> internal_id r <> iid.
Proof.
  unfold img_by_internal_id.
  destruct (list_find _ _) as [[j r]|] eqn:H; [discriminate|].
  intros _ r Hr. apply list_find_None in H. rewrite Forall_forall in H.
  exact (H r Hr).
Qed.

Lemma handle_add_command_continue E s g payload i :
  init_img s g = false ->
  img_by_internal_id s (loading_image s) = Some i ->
  touch (0 <= payload_sz g) false i s (handle_add_command E s g payload).
Proof.
  intros Hn Hf. unfold handle_add_command, resolve_image, continue_image.
  rewrite Hn, Hf.
  destruct (img_by_internal_id_Some _ _ _ Hf) as (Hi & _).
  assert (Hd : by_file g = false).
  { unfold init_img in Hn. unfold by_file.
    destruct (transmission g =? chr "d"); [reflexivity|discriminate]. }
  pose proof (acquire_touch E s i g payload Hi) as T2.
  rewrite Hd in T2.
  pose proof (flow_touch_length _ _ _ _ _ T2) as L2.
  destruct (acquire E s i g payload) as [s3|s3 i3]; [exact T2|].
  destruct T2 as [-> T2]. rewrite <- L2 in Hi.
  exact (touch_trans _ _ _ _ _ _ T2 (process_touch _ _ E s3 i g Hi)).
Qed.

Lemma handle_add_command_gone E s g payload :
  init_img s g = false ->
  img_by_internal_id s (loading_image s) = None ->
  handle_add_command E s g payload =
  emit [Report NonExistentImage] (set_loading_image 0 s).
Proof.
  intros Hn Hf. unfold handle_add_command, resolve_image, continue_image.
  rewrite Hn, Hf. reflexivity.
Qed.

(** ** The invariant of the store *)

Section Unique.
Variable f : Image -> Z.
Variable P : Z -> Prop.

Lemma unique_by_nil : unique_by f P [].
Proof. intros i j a b H. rewrite lookup_nil in H. discriminate. Qed.

Lemma unique_by_tail x l : unique_by f P (x :: l) -> unique_by f P l.
Proof.
  intros H i j a b Ha Hb Hf Hp.
  assert (S i = S j) by (eapply H; eauto). lia.
Qed.

Lemma unique_by_sublist l1 l2 :
  l1 `sublist_of` l2 -> unique_by f P l2 -> unique_by f P l1.
Proof.
  induction 1 as [|x l1 l2 Hs IH|x l1 l2 Hs IH]; intros H.
  - exact H.
  - intros [|i] [|j] a b Ha Hb Hf Hp; cbn in Ha, Hb.
    + reflexivity.
    + exfalso. apply list_elem_of_lookup_2 in Hb.
      apply (elem_of_sublist _ _ _ Hb) in Hs.
      apply list_elem_of_lookup_1 in Hs. destruct Hs as [k Hk].
      assert (O = S k) by (eapply H; eauto). discriminate.
    + exfalso. apply list_elem_of_lookup_2 in Ha.
      apply (elem_of_sublist _ _ _ Ha) in Hs.
      apply list_elem_of_lookup_1 in Hs. destruct Hs as [k Hk].
      assert (S k = O) by (eapply H; eauto). discriminate.
    + f_equal. apply (IH (unique_by_tail _ _ H) i j a b); assumption.
  - apply IH. eapply unique_by_tail, H.
Qed.

Lemma unique_by_insert l i a a' :
  l !! i = Some a -> f a' = f a ->
  unique_by f P l -> unique_by f P (<[i := a']> l).
Proof.
  intros Hi Hf H j k x y Hx Hy Hxy Hp.
  apply list_lookup_insert_Some in Hx, Hy.
  destruct Hx as [(Ej & Ex & _)|(Hj & Hx)],
           Hy as [(Ek & Ey & _)|(Hk & Hy)]; subst.
  - reflexivity.
  - rewrite Hf in Hxy, Hp. apply (H j k a y); assumption.
  - rewrite Hf in Hxy. apply (H j k x a); try assumption.
  - apply (H j k x y); assumption.
Qed.

Lemma unique_by_snoc l x :
  (forall r, r ∈ l -> f r = f x -> ~ P (f x)) ->
  unique_by f P l -> unique_by f P (l ++ [x]).
Proof.
  intros Hx H i j a b Ha Hb Hf Hp.
  apply lookup_snoc_Some in Ha, Hb.
  destruct Ha as [(Hi & Ha)|(-> & ->)], Hb as [(Hj & Hb)|(-> & ->)].
  - apply (H i j a b); assumption.
  - exfalso. apply (Hx a); [eapply list_elem_of_lookup_2; eauto| |];
      congruence.
  - exfalso. apply (Hx b); [eapply list_elem_of_lookup_2; eauto| |];
      congruence.
  - reflexivity.
Qed.
End Unique.

Lemma elem_of_insert_inv (l : list Image) i x r :
  r ∈ <[i := x]> l -> r = x \/ r ∈ l.
Proof.
  intros H. apply list_elem_of_lookup_1 in H. destruct H as [k Hk].
  apply list_lookup_insert_Some in Hk.
  destruct Hk as [(_ & -> & _)|(_ & Hk)]; [left; reflexivity|].
  right. eapply list_elem_of_lookup_2; eauto.
Qed.

Lemma elem_of_kept p l r : r ∈ kept p l <-> p r = false /\ r ∈ l.
Proof. unfold kept. rewrite list_elem_of_filter. reflexivity. Qed.

Lemma kept_sublist p l : kept p l `sublist_of` l.
Proof. unfold kept. apply sublist_filter. Qed.

Lemma add_trim_predicate_false r :
  add_trim_predicate r = false ->
  data_loaded r = true /\ (client_id r <> 0 \/ refcnt r <> 0).
Proof.
  unfold add_trim_predicate. intros H.
  apply orb_false_iff in H. destruct H as [H1 H2].
  apply negb_false_iff in H1. split; [exact H1|].
  apply andb_false_iff in H2. destruct H2 as [H2|H2];
    apply Z.eqb_neq in H2; auto.
Qed.

Lemma wf_grman_new : wf grman_new.
Proof.
  split; cbn; try (intros r Hr; apply elem_of_nil in Hr; contradiction).
  - split; reflexivity.
  - apply unique_by_nil.
  - apply unique_by_nil.
  - lia.
Qed.

(** The sweep keeps the invariant, and keeps loaded records only. *)
Lemma wf_swept s evs :
  wf s -> wf (emit evs (set_images (kept add_trim_predicate) s)).
Proof.
  intros [A1 A2 A3 A4 A5 A6 A7]. split; st_simpl; auto.
  - intros r Hr. apply elem_of_kept in Hr. apply A2, Hr.
  - eapply unique_by_sublist; [apply kept_sublist|exact A3].
  - eapply unique_by_sublist; [apply kept_sublist|exact A4].
  - intros r Hr. apply elem_of_kept in Hr. apply A6, Hr.
  - intros r Hr. apply elem_of_kept in Hr. apply A7, Hr.
Qed.

(** Work on one record keeps the invariant. *)
Lemma wf_touch (v : Prop) file i s s' :
  wf s -> (i < length (images s))%nat -> touch v file i s s' -> v ->
  (file = true -> internal_id (img_at s i) <> loading_image s) ->
  wf s'.
Proof.
  intros [A1 A2 A3 A4 A5 A6 A7] Hi
         [B1 B2 B3 B4 B5 B6 B7 B8 B9 B10 B11] Hv Hfile.
  pose proof (lookup_img_at s i Hi) as Hl.
  pose proof (list_elem_of_lookup_2 _ _ _ Hl) as Hin.
  split.
  - rewrite B5. exact A1.
  - rewrite B5, B1. intros r Hr.
    apply elem_of_insert_inv in Hr. destruct Hr as [->|Hr]; auto.
    rewrite B3. auto.
  - rewrite B1. eapply unique_by_insert; eauto.
  - rewrite B1. eapply unique_by_insert; eauto.
  - rewrite B5. destruct B8 as [->|[->|(_ & -> & _)]]; auto; [lia|].
    rewrite B3. specialize (A2 _ Hin). lia.
  - intros r Hr Hid. apply list_elem_of_lookup_1 in Hr.
    destruct Hr as [k Hk]. rewrite B1 in Hk.
    apply list_lookup_insert_Some in Hk.
    destruct Hk as [(<- & <- & _)|(Hne & Hk)].
    + destruct (data_loaded (img_at s' i)) eqn:Hd; [|reflexivity].
      exfalso. specialize (A2 _ Hin).
      destruct B8 as [B8|[B8|(_ & _ & B8)]]; [| |congruence].
      * destruct (B11 eq_refl) as [C|[C|C]].
        -- assert (data_loaded (img_at s i) = false)
             by (apply A6; [exact Hin|congruence]). congruence.
        -- lia.
        -- apply (Hfile C). congruence.
      * lia.
    + pose proof (list_elem_of_lookup_2 _ _ _ Hk) as Hr.
      destruct B8 as [B8|[B8|(_ & B8 & _)]].
      * apply A6; [exact Hr|congruence].
      * specialize (A2 _ Hr). lia.
      * exfalso. apply Hne. apply (A3 i k (img_at s i) r); auto. congruence.
  - rewrite B1. intros r Hr.
    apply elem_of_insert_inv in Hr. destruct Hr as [->|Hr]; auto.
Qed.

Lemma rec_ok_reset_image old : rec_ok old -> rec_ok (reset_image old).
Proof. intros (_ & _ & Hd). unfold rec_ok, reset_image. img_simpl. lia. Qed.

Lemma rec_ok_zero_image c cid : rec_ok (set_ids c cid zero_image).
Proof. unfold rec_ok. cbn. unfold size_mod. lia. Qed.

(** The choice of the record keeps the invariant, and never chooses the
    record of the pending load. *)
Lemma wf_target_image s g s1 i :
  wf s -> internal_id_counter s + 1 < size_mod ->
  target_image s g = (s1, i) ->
  wf s1 /\ internal_id (img_at s1 i) <> loading_image s1.
Proof.
  intros Hwf Hc Ht.
  destruct (found (id g) (kept add_trim_predicate (images s)))
    as [[j old]|] eqn:Hf.
  - rewrite (target_image_existing _ _ _ _ Hf) in Ht.
    apply pair_equal_spec in Ht as [<- <-].
    pose proof (found_Some _ _ _ _ Hf) as (_ & Hl & _ & _).
    set (s0 := emit (swept_events add_trim_predicate (images s)
                     ++ fst (free_load_data (load_data old)))
                 (set_images (kept add_trim_predicate) s)).
    assert (W0 : wf s0) by (apply wf_swept, Hwf).
    assert (Hj : (j < length (images s0))%nat)
      by (eapply lookup_lt_Some; exact Hl).
    assert (Hat : img_at s0 j = old) by (apply img_at_lookup, Hl).
    assert (Hold : old ∈ kept add_trim_predicate (images s))
      by (eapply list_elem_of_lookup_2; exact Hl).
    apply elem_of_kept in Hold. destruct Hold as [Hk Hold].
    apply add_trim_predicate_false in Hk. destruct Hk as [Hk _].
    assert (Hne : internal_id old <> loading_image s).
    { intros He. pose proof (wf_pending _ Hwf old Hold He). congruence. }
    split.
    + apply (wf_touch True false j s0 _ W0 Hj); [|exact I|discriminate].
      pose proof (wf_ok _ Hwf old Hold) as Hok.
      apply touch_upd; rewrite ?Hat; auto using rec_ok_reset_image.
    + rewrite img_at_upd_img by exact Hj. exact Hne.
  - rewrite (target_image_new _ _ Hf) in Ht.
    apply pair_equal_spec in Ht as [<- <-].
    destruct Hwf as [A1 A2 A3 A4 A5 A6 A7].
    assert (Hw : wrap_size (internal_id_counter s + 1)
                 = internal_id_counter s + 1)
      by (apply wrap_size_small; lia).
    assert (Hat : forall c e' k e,
      img_at (set_internal_id_counter c (emit e' (set_images_capacity k (emit e
        (set_images (fun l => kept add_trim_predicate l
           ++ [set_ids (internal_id_counter s) (id g) zero_image]) s)))))
        (length (kept add_trim_predicate (images s)))
      = set_ids (internal_id_counter s) (id g) zero_image).
    { intros. unfold img_at. st_simpl.
      rewrite lookup_app_r, Nat.sub_diag by lia. reflexivity. }
    split; [|rewrite Hat; st_simpl; cbn; lia].
    split; st_simpl; rewrite ?Hw.
    + lia.
    + intros r Hr. apply elem_of_app in Hr. destruct Hr as [Hr|Hr].
      * apply elem_of_kept in Hr. specialize (A2 r (proj2 Hr)). lia.
      * apply list_elem_of_singleton in Hr. subst r. cbn. lia.
    + apply unique_by_snoc.
      * intros r Hr He. apply elem_of_kept in Hr.
        specialize (A2 r (proj2 Hr)). cbn in He. lia.
      * eapply unique_by_sublist; [apply kept_sublist|exact A3].
    + apply unique_by_snoc.
      * intros r Hr He Hn. cbn in He, Hn.
        destruct (found_None _ _ Hf) as [H0|H0]; [contradiction|].
        exact (H0 r Hr He).
      * eapply unique_by_sublist; [apply kept_sublist|exact A4].
    + lia.
    + intros r Hr He. apply elem_of_app in Hr. destruct Hr as [Hr|Hr].
      * apply elem_of_kept in Hr. apply A6; [apply Hr|exact He].
      * apply list_elem_of_singleton in Hr. subst r. reflexivity.
    + intros r Hr. apply elem_of_app in Hr. destruct Hr as [Hr|Hr].
      * apply elem_of_kept in Hr. apply A7, Hr.
      * apply list_elem_of_singleton in Hr. subst r.
        apply rec_ok_zero_image.
Qed.

Lemma wf_idle s evs : wf s -> wf (emit evs (set_loading_image 0 s)).
Proof.
  intros [A1 A2 A3 A4 A5 A6 A7]. split; st_simpl; auto; [lia|].
  intros r Hr He. specialize (A2 r Hr). lia.
Qed.

(** Every reachable state satisfies the invariant: it holds in the fresh
    manager and every command keeps it, as long as the counter of internal
    ids does not wrap and the payload size is a size. *)
Lemma wf_handle_add_command E s g payload :
  wf s -> internal_id_counter s + 1 < size_mod -> 0 <= payload_sz g ->
  wf (handle_add_command E s g payload).
Proof.
  intros Hwf Hc Hp. destruct (init_img s g) eqn:Hn.
  - destruct (target_image s g) as [s1 i] eqn:Ht.
    destruct (wf_target_image _ _ _ _ Hwf Hc Ht) as [W1 Hne].
    destruct (target_image_spec _ _ _ _ Ht) as (Hi & _).
    eapply wf_touch;
      [exact W1|exact Hi|apply handle_add_command_new; eauto|exact Hp|].
    intros _. exact Hne.
  - destruct (img_by_internal_id s (loading_image s)) as [i|] eqn:Hf.
    + destruct (img_by_internal_id_Some _ _ _ Hf) as (Hi & _).
      eapply wf_touch;
        [exact Hwf|exact Hi|apply handle_add_command_continue; eauto
        |exact Hp|discriminate].
    + rewrite handle_add_command_gone by assumption. apply wf_idle, Hwf.
Qed.

Lemma wf_emit s evs : wf s -> wf (emit evs s).
Proof. intros [A1 A2 A3 A4 A5 A6 A7]. split; st_simpl; auto. Qed.

Lemma wf_grman_handle_command E s g payload :
  wf s -> internal_id_counter s + 1 < size_mod -> 0 <= payload_sz g ->
  wf (grman_handle_command E s g payload).
Proof.
  intros Hwf Hc Hp. unfold grman_handle_command.
  destruct (_ || _); [apply wf_handle_add_command|apply wf_emit]; auto.
Qed.

(** ** The record at the moment of acquisition *)

Lemma start_image_direct s g s1 i :
  transmission g = chr "d" ->
  start_image s g = Go s1 i ->
  exists st sz aligned,
    target_image s g = (st, i) /\
    format_size g (data_width g) (wrap_u32 (data_width g * data_height g))
      = Some (sz, aligned) /\
    (i < length (images s1))%nat /\
    img_at s1 i = started g (next_addr s) sz aligned (img_at st i) /\
    loading_image s1 =
      (if more g =? 0 then loading_image s else internal_id (img_at st i)) /\
    log s1 = log st.
Proof.
  intros Hd. unfold start_image. rewrite Hd, Z.eqb_refl.
  destruct (target_image s g) as [st j] eqn:Ht.
  destruct (target_image_spec _ _ _ _ Ht)
    as (Hj & _ & _ & _ & _ & _ & _ & Hload & Haddr & _).
  rewrite img_at_upd_img by exact Hj. img_simpl.
  destruct (format_size _ _ _) as [[sz aligned]|] eqn:Hsz; [|discriminate].
  cbn [malloc]. intros [= <- <-].
  exists st, sz, aligned. split; [reflexivity|]. split; [reflexivity|].
  split; [destruct (negb (more g =? 0)); len|].
  unfold started, slack.
  destruct (more g =? 0); cbn [negb]; norm; rewrite Haddr; auto.
Qed.

Lemma resolve_image_direct s g s1 i :
  wf s -> transmission g = chr "d" -> resolve_image s g = Go s1 i ->
  (i < length (images s1))%nat /\ rec_ok (img_at s1 i) /\
  data_loaded (img_at s1 i) = false.
Proof.
  intros Hwf Hd. unfold resolve_image.
  destruct (init_img s g).
  - intros Hs.
    destruct (start_image_direct _ _ _ _ Hd Hs)
      as (st & sz & al & Ht & Hsz & Hi & Hat & _).
    destruct (target_image_spec _ _ _ _ Ht) as (_ & Hl & _).
    apply format_size_range in Hsz.
    pose proof (wrap_size_range (sz + slack g)).
    rewrite Hat. split; [exact Hi|]. split; [|exact Hl].
    unfold rec_ok, started. img_simpl. lia.
  - unfold continue_image.
    destruct (img_by_internal_id s (loading_image s)) as [j|] eqn:Hf;
      [|discriminate].
    intros [= <- <-].
    destruct (img_by_internal_id_Some _ _ _ Hf) as (Hj & Hid & _).
    pose proof (list_elem_of_lookup_2 _ _ _ (lookup_img_at _ _ Hj)) as Hin.
    split; [exact Hj|]. split; [apply (wf_ok _ Hwf), Hin|].
    apply (wf_pending _ Hwf); assumption.
Qed.

(** The test of [case 'd'] on a record with sound accounting. *)
Lemma acquire_direct_rejects s i g payload :
  rec_ok (img_at s i) ->
  payload_sz g >=
    buf_capacity (load_data (img_at s i)) - buf_used (load_data (img_at s i))
  ->
  acquire_direct s i g payload = Return (emit [Report TooMuchData] s).
Proof.
  intros (Hu & Hc & _) Hp. unfold acquire_direct.
  rewrite wrap_size_small by lia.
  destruct (_ >=? _) eqn:Hge; [reflexivity|].
  rewrite Z.geb_leb in Hge. apply Z.leb_gt in Hge. lia.
Qed.

Lemma acquire_direct_accepts s i g payload s2 i2 :
  rec_ok (img_at s i) -> (i < length (images s))%nat ->
  0 <= payload_sz g ->
  acquire_direct s i g payload = Go s2 i2 ->
  payload_sz g <
    buf_capacity (load_data (img_at s i)) - buf_used (load_data (img_at s i))
  /\ buf_used (load_data (img_at s2 i))
     = buf_used (load_data (img_at s i)) + payload_sz g
  /\ buf_capacity (load_data (img_at s2 i))
     = buf_capacity (load_data (img_at s i)).
Proof.
  intros (Hu & Hc & _) Hi Hp. unfold acquire_direct.
  rewrite (wrap_size_small (_ - _)) by lia.
  destruct (_ >=? _) eqn:Hge; [discriminate|].
  rewrite Z.geb_leb in Hge. apply Z.leb_gt in Hge.
  intros [= <- <-]. split; [lia|].
  destruct (more g =? 0); norm; rewrite wrap_size_small by lia; auto.
Qed.

(** C5.  A direct chunk that exceeds the remaining reserved capacity of the
    accumulation buffer (in particular one that is one byte larger than the
    capacity) is rejected with "Too much data transmitted" before anything
    is written: the command returns the state it reached when it had
    resolved its record, so the buffer and [buf_used] are as they were and
    the record is left with [data_loaded = false].  And no accepted chunk
    is written past the capacity. *)
Theorem oversized_chunk_rejected E s g payload s1 i :
  wf s ->
  transmission g = chr "d" ->
  resolve_image s g = Go s1 i ->
  payload_sz g >
    buf_capacity (load_data (img_at s1 i)) - buf_used (load_data (img_at s1 i))
  \/ payload_sz g = buf_capacity (load_data (img_at s1 i)) + 1 ->
  handle_add_command E s g payload = emit [Report TooMuchData] s1 /\
  images (handle_add_command E s g payload) = images s1 /\
  load_data (img_at (handle_add_command E s g payload) i)
  = load_data (img_at s1 i) /\
  data_loaded (img_at (handle_add_command E s g payload) i) = false /\
  (forall g' payload' s2 i2,
      0 <= payload_sz g' ->
      acquire_direct s1 i g' payload' = Go s2 i2 ->
      buf_used (load_data (img_at s1 i)) + payload_sz g'
        <= buf_capacity (load_data (img_at s1 i))).
Proof.
  intros Hwf Hd Hr Hp.
  destruct (resolve_image_direct _ _ _ _ Hwf Hd Hr) as (Hi & Hok & Hl).
  assert (Hrej : acquire_direct s1 i g payload
                 = Return (emit [Report TooMuchData] s1)).
  { apply acquire_direct_rejects; [exact Hok|].
    destruct Hok as (Hu & _). lia. }
  assert (Heq : handle_add_command E s g payload
                = emit [Report TooMuchData] s1).
  { unfold handle_add_command, acquire. rewrite Hr, Hd, Z.eqb_refl, Hrej.
    reflexivity. }
  rewrite Heq. repeat split; auto.
  intros g' payload' s2 i2 Hp' Ha.
  destruct (acquire_direct_accepts _ _ _ _ _ _ Hok Hi Hp' Ha). lia.
Qed.

(** C10.  A direct chunk whose size equals the remaining capacity
    [buf_capacity - buf_used] is rejected as well: a chunk is accepted
    exactly when [payload_sz < buf_capacity - buf_used], so after every
    accepted chunk [buf_used] stays strictly below [buf_capacity]. *)
Theorem exact_fit_chunk_rejected E s g payload s1 i :
  wf s ->
  transmission g = chr "d" ->
  resolve_image s g = Go s1 i ->
  payload_sz g =
    buf_capacity (load_data (img_at s1 i)) - buf_used (load_data (img_at s1 i))
  ->
  handle_add_command E s g payload = emit [Report TooMuchData] s1 /\
  (forall g' payload',
      0 <= payload_sz g' ->
      ((exists s2 i2, acquire_direct s1 i g' payload' = Go s2 i2) <->
       payload_sz g' <
         buf_capacity (load_data (img_at s1 i))
         - buf_used (load_data (img_at s1 i)))) /\
  (forall g' payload' s2 i2,
      0 <= payload_sz g' ->
      acquire_direct s1 i g' payload' = Go s2 i2 ->
      buf_used (load_data (img_at s2 i)) < buf_capacity (load_data (img_at s2 i))).
Proof.
  intros Hwf Hd Hr Hp.
  destruct (resolve_image_direct _ _ _ _ Hwf Hd Hr) as (Hi & Hok & Hl).
  split; [|split].
  - unfold handle_add_command, acquire. rewrite Hr, Hd, Z.eqb_refl.
    rewrite acquire_direct_rejects; [reflexivity|exact Hok|lia].
  - intros g' payload' Hp'. split.
    + intros (s2 & i2 & Ha).
      apply (acquire_direct_accepts _ _ _ _ _ _ Hok Hi Hp' Ha).
    + intros Hlt. unfold acquire_direct.
      destruct Hok as (Hu & Hc & _). rewrite wrap_size_small by lia.
      destruct (_ >=? _) eqn:Hge; [|eauto].
      rewrite Z.geb_leb in Hge. apply Z.leb_le in Hge. lia.
  - intros g' payload' s2 i2 Hp' Ha.
    destruct (acquire_direct_accepts _ _ _ _ _ _ Hok Hi Hp' Ha)
      as (H1 & H2 & H3).
    lia.
Qed.

(** ** A raw direct transmission *)

Lemma resolve_image_rgba_2x1 s g st i :
  format g = RGBA -> data_width g = 2 -> data_height g = 1 ->
  transmission g = chr "d" -> compressed g = 0 -> more g = 0 ->
  target_image s g = (st, i) ->
  exists s1,
    resolve_image s g = Go s1 i /\ (i < length (images s1))%nat /\
    img_at s1 i = started g (next_addr s) 8 true (img_at st i) /\
    log s1 = log st.
Proof.
  intros Hf Hw Hh Hd Hc Hm Ht.
  assert (Hn : init_img s g = true).
  { unfold init_img. rewrite Hm. cbn. rewrite andb_false_r. reflexivity. }
  unfold resolve_image. rewrite Hn.
  destruct (target_image_spec _ _ _ _ Ht) as (Hi & _).
  destruct (start_image s g) as [s1|s1 j] eqn:Hs.
  - exfalso. revert Hs. unfold start_image. rewrite Ht, Hd.
    rewrite img_at_upd_img by exact Hi. img_simpl.
    unfold format_size. rewrite Hf, Hw, Hh. cbn. discriminate.
  - destruct (start_image_direct _ _ _ _ Hd Hs)
      as (st' & sz & al & Ht' & Hsz & Hj & Hat & _ & Hlog).
    rewrite Ht in Ht'. apply pair_equal_spec in Ht' as [<- <-].
    unfold format_size in Hsz. rewrite Hf, Hw, Hh in Hsz. cbn in Hsz.
    injection Hsz as <- <-.
    exists s1. repeat split; auto.
Qed.

(** C8.  A transmit command with format RGBA, width 2, height 1, direct
    medium, no compression and no "more" flag: with a chunk of exactly 8
    bytes the record ends loaded, 2 by 1, and the data a consumer reads are
    the 8 bytes of the chunk; with a chunk of 4 bytes the command reports
    "Insufficient image data: 4 < 8" and the record ends not loaded. *)
Theorem rgba_2x1_direct_scenario E s g payload st i :
  action g = 0 \/ action g = chr "t" ->
  format g = RGBA -> data_width g = 2 -> data_height g = 1 ->
  transmission g = chr "d" -> compressed g = 0 -> more g = 0 ->
  payload_sz g = Z.of_nat (length payload) ->
  target_image s g = (st, i) ->
  (length payload = 8%nat ->
   data_loaded (img_at (grman_handle_command E s g payload) i) = true /\
   width (img_at (grman_handle_command E s g payload) i) = 2 /\
   height (img_at (grman_handle_command E s g payload) i) = 1 /\
   pixel_data (img_at (grman_handle_command E s g payload) i) = Some payload
   /\ log (grman_handle_command E s g payload) = log st) /\
  (length payload = 4%nat ->
   data_loaded (img_at (grman_handle_command E s g payload) i) = false /\
   log (grman_handle_command E s g payload)
   = log st ++ [Report (InsufficientData 4 8)]).
Proof.
  intros Ha Hf Hw Hh Hd Hc Hm Hp Ht.
  destruct (resolve_image_rgba_2x1 _ _ _ _ Hf Hw Hh Hd Hc Hm Ht)
    as (s1 & Hr & Hi & Hat & Hlog).
  assert (Hact : (action g =? 0) || (action g =? chr "t") = true).
  { destruct Ha as [-> | ->]; reflexivity. }
  assert (Hsl : slack g = 10).
  { unfold slack. rewrite Hc, Hf. reflexivity. }
  unfold grman_handle_command. rewrite Hact.
  unfold handle_add_command, acquire. rewrite Hr, Hd, Z.eqb_refl.
  assert (Hacc : forall n, n = 4 \/ n = 8 -> payload_sz g = n ->
    acquire_direct s1 i g payload =
    Go (set_loading_image 0
          (upd_img i (set_data_loaded true)
             (upd_img i
                (set_load_data
                   (set_buf
                      (Some {| addr := next_addr s;
                               bytes := memcpy_at (repeat x00 22) 0 payload
                                          (Z.to_nat n) |})
                      n 18)) s1))) i).
  { intros n Hn Hpn. unfold acquire_direct.
    rewrite Hat, Hm, Hpn. unfold started. rewrite Hsl. img_simpl.
    destruct Hn as [-> | ->]; reflexivity. }
  assert (Hrec : forall n,
    img_at (set_loading_image 0
          (upd_img i (set_data_loaded true)
             (upd_img i
                (set_load_data
                   (set_buf
                      (Some {| addr := next_addr s;
                               bytes := memcpy_at (repeat x00 22) 0 payload
                                          (Z.to_nat n) |})
                      n 18)) s1))) i
    = set_data_loaded true
        (set_load_data
           (set_buf
              (Some {| addr := next_addr s;
                       bytes := memcpy_at (repeat x00 22) 0 payload
                                  (Z.to_nat n) |})
              n 18) (started g (next_addr s) 8 true (img_at st i)))).
  { intros n. norm. rewrite Hat. reflexivity. }
  split; intros Hlen; rewrite Hlen in Hp.
  - rewrite (Hacc 8) by auto. unfold process.
    rewrite Hrec, Hd, Hc, Hf. unfold started. img_simpl.
    change (RGBA =? PNG) with false. change (8 <? 8) with false.
    rewrite !Z.eqb_refl. cbn [negb orb].
    rewrite img_at_upd_img by len. rewrite Hrec. unfold started. img_simpl.
    repeat split; auto.
    unfold pixel_data, block_at. img_simpl.
    cbn [fmap option_fmap option_map addr bytes]. rewrite Z.eqb_refl.
    do 9 (destruct payload as [|? payload]; try discriminate).
    reflexivity.
  - rewrite (Hacc 4) by auto. unfold process.
    rewrite Hrec, Hd, Hc, Hf. unfold started. img_simpl.
    change (RGBA =? PNG) with false. change (4 <? 8) with true.
    rewrite !Z.eqb_refl. cbn [negb orb].
    unfold insufficient, fail_load.
    rewrite img_at_upd_img by len. rewrite img_at_emit, Hrec.
    unfold started. img_simpl. split; [reflexivity|].
    st_simpl. rewrite Hlog. reflexivity.
Qed.

(** ** The decompression stage *)

(** inflate_zlib succeeds exactly when inflateInit gives Z_OK, inflate
    gives Z_STREAM_END and zlib's output counter is at 0.  That counter
    starts at the expected size modulo 2^32, and the input zlib is given
    is the first [bufsz] modulo 2^32 bytes: for an expected size below
    2^32, success means that the stream has filled the buffer of the
    expected size.  On every other outcome one error is reported, the new
    buffer is freed, no record changes, and handle_add_command leaves the
    record with [data_loaded = false].  On success the staging state is
    released (the buffer freed, the mapping unmapped, the descriptor
    closed when it is positive, and nothing else) and the record gets the
    new buffer with the bytes zlib wrote, [data_sz] bytes counted as used
    of a capacity of [data_sz]. *)
Theorem inflate_zlib_exact E s i src bufsz ret avail_out out :
  (i < length (images s))%nat ->
  0 <= data_sz (load_data (img_at s i)) < size_mod ->
  zlib_inflate E (take (Z.to_nat (wrap_u32 bufsz)) src)
    (wrap_u32 (data_sz (load_data (img_at s i))))
    = (ret, avail_out, out) ->
  (fst (inflate_zlib E s i src bufsz) = true <->
   (zlib_inflateInit E = Z_OK /\ ret = Z_STREAM_END) /\ avail_out = 0) /\
  (fst (inflate_zlib E s i src bufsz) = false ->
   images (snd (inflate_zlib E s i src bufsz)) = images s /\
   loading_image (snd (inflate_zlib E s i src bufsz)) = loading_image s /\
   (exists r, log (snd (inflate_zlib E s i src bufsz))
              = log s ++ [Report r; Free (next_addr s)]) /\
   forall g,
     compressed g = chr "z" -> data_loaded (img_at s i) = true ->
     src = IB (load_data (img_at s i)) ->
     bufsz = IB_sz (load_data (img_at s i)) ->
     images (process E s i g)
     = <[i := set_data_loaded false (img_at s i)]> (images s)) /\
  (fst (inflate_zlib E s i src bufsz) = true ->
   img_at (snd (inflate_zlib E s i src bufsz)) i
   = set_load_data
       (fun ld =>
          {| buf := Some {| addr := next_addr s; bytes := out |};
             is_4byte_aligned := is_4byte_aligned ld;
             buf_capacity := data_sz ld; buf_used := data_sz ld;
             mapped_file := None; mapped_file_sz := 0;
             data_sz := data_sz ld; data := data ld; fd := -1 |})
       (img_at s i) /\
   log (snd (inflate_zlib E s i src bufsz))
   = log s ++ release_events (load_data (img_at s i)) /\
   (data_sz (load_data (img_at s i)) < u32_mod ->
    Z.of_nat (length out)
    = wrap_u32 (data_sz (load_data (img_at s i))) - avail_out ->
    Z.of_nat (length out) = data_sz (load_data (img_at s i)))).
Proof.
  intros Hi Hd Hz.
  assert (Hfail : forall r,
    inflate_zlib E s i src bufsz
    = (false, emit [Report r; Free (next_addr s)]
                (set_next_addr (next_addr s + 1) s)) ->
    forall g,
      compressed g = chr "z" -> data_loaded (img_at s i) = true ->
      src = IB (load_data (img_at s i)) ->
      bufsz = IB_sz (load_data (img_at s i)) ->
      images (process E s i g)
      = <[i := set_data_loaded false (img_at s i)]> (images s)).
  { intros r Hr g Hc Hl -> ->. unfold process, decompress.
    rewrite Hl, Hc, Z.eqb_refl, Hr. cbn [negb orb].
    change (chr "z" =? 0) with false. cbn [negb orb].
    unfold fail_load. rewrite images_upd_img. reflexivity. }
  unfold inflate_zlib in *. cbn [malloc] in *. rewrite Hz in *.
  destruct (Z.eqb_spec (zlib_inflateInit E) Z_OK) as [Hinit|Hinit];
    cbn [negb fst snd] in *.
  2:{ split; [|split]; [split; [discriminate|tauto]| |discriminate].
      intros _. st_simpl. repeat split; eauto. }
  destruct (Z.eqb_spec ret Z_STREAM_END) as [Hret|Hret];
    cbn [negb fst snd] in *.
  2:{ split; [|split]; [split; [discriminate|tauto]| |discriminate].
      intros _. st_simpl. repeat split; eauto. }
  destruct (Z.eqb_spec avail_out 0) as [Hav|Hav]; cbn [negb fst snd] in *.
  2:{ split; [|split]; [split; [discriminate|tauto]| |discriminate].
      intros _. st_simpl. repeat split; eauto. }
  split; [tauto|]. split; [discriminate|]. intros _. subst avail_out.
  rewrite Z.sub_0_r, wrap_size_small by exact Hd.
  cbn [free_load_data snd fst]. rewrite img_at_upd_img by len.
  split; [reflexivity|]. split; [reflexivity|].
  intros Hlt Hlen. rewrite Hlen, Z.sub_0_r.
  unfold wrap_u32. apply Z.mod_small. lia.
Qed.

(** ** Sequences of commands *)





(** ** New transmissions without a matching record *)

Lemma grman_handle_command_transmit E s g payload :
  is_transmit g ->
  grman_handle_command E s g payload = handle_add_command E s g payload.
Proof.
  intros [H|H]; unfold grman_handle_command; rewrite H; reflexivity.
Qed.

(** A new transmission that finds no record of its client id (always so
    for the id 0) appends one record to the records the sweep keeps, and
    gives it the next internal id. *)
Lemma handle_add_command_fresh E s g payload :
  init_img s g = true ->
  found (id g) (kept add_trim_predicate (images s)) = None ->
  exists r,
    images (handle_add_command E s g payload)
    = kept add_trim_predicate (images s) ++ [r] /\
    client_id r = id g /\ internal_id r = internal_id_counter s /\
    refcnt r = 0 /\
    internal_id_counter (handle_add_command E s g payload)
    = wrap_size (internal_id_counter s + 1).
Proof.
  intros Hn Hf. destruct (target_image s g) as [st i] eqn:Ht.
  pose proof (handle_add_command_new E s g payload st i Hn Ht) as T.
  destruct (target_image_spec _ _ _ _ Ht)
    as (Hi & _ & _ & _ & _ & _ & _ & _ & _ &
        [(old & Hf' & _)|(_ & Him & -> & Hc)]); [congruence|].
  assert (Hat : img_at st (length (kept add_trim_predicate (images s)))
                = set_ids (internal_id_counter s) (id g) zero_image).
  { unfold img_at. rewrite Him, lookup_app_r, Nat.sub_diag by lia.
    reflexivity. }
  destruct T as [B1 B2 B3 B4 B5 _ _ _ _ _ _]. rewrite Hat in *.
  eexists. split; [|repeat split; [exact B2|exact B3|exact B4|congruence]].
  rewrite B1, Him, insert_app_r_alt, Nat.sub_diag by lia. reflexivity.
Qed.

Lemma img_by_internal_id_last s l r x :
  images s = l ++ [r] -> internal_id r = x ->
  (forall r', r' ∈ l -> internal_id r' <> x) ->
  img_by_internal_id s x = Some (length l).
Proof.
  intros Hs Hr Hl. unfold img_by_internal_id. rewrite Hs.
  rewrite list_find_app_r.
  - cbn. rewrite decide_True by exact Hr. reflexivity.
  - apply list_find_None, Forall_forall. exact Hl.
Qed.

Lemma img_by_internal_id_absent s x :
  (forall r, r ∈ images s -> internal_id r <> x) ->
  img_by_internal_id s x = None.
Proof.
  intros H. unfold img_by_internal_id.
  rewrite (proj2 (list_find_None _ _)); [reflexivity|].
  apply Forall_forall. exact H.
Qed.

(** C1 (amended).  Two consecutive new transmissions with client id 0 never
    collide: the second does not find the record of the first and gets the
    next internal id.  But the sweep that opens the second transmission
    removes the record of the first, which is anonymous and unreferenced:
    after the first command its record is found under its internal id,
    after the second command only the second record is. *)
Theorem anonymous_transmissions_do_not_collide E1 E2 s g1 g2 p1 p2 :
  wf s -> internal_id_counter s + 1 < size_mod ->
  id g1 = 0 -> id g2 = 0 ->
  init_img s g1 = true ->
  init_img (handle_add_command E1 s g1 p1) g2 = true ->
  (exists i1,
     img_by_internal_id (handle_add_command E1 s g1 p1)
       (internal_id_counter s) = Some i1 /\
     client_id (img_at (handle_add_command E1 s g1 p1) i1) = 0) /\
  (exists i2,
     img_by_internal_id
       (handle_add_command E2 (handle_add_command E1 s g1 p1) g2 p2)
       (internal_id_counter s + 1) = Some i2 /\
     client_id
       (img_at (handle_add_command E2 (handle_add_command E1 s g1 p1) g2 p2)
          i2) = 0) /\
  img_by_internal_id
    (handle_add_command E2 (handle_add_command E1 s g1 p1) g2 p2)
    (internal_id_counter s) = None.
Proof.
  intros Hwf Hc Hg1 Hg2 Hn1 Hn2.
  assert (Hnone : forall l, found 0 l = None) by reflexivity.
  destruct (handle_add_command_fresh E1 s g1 p1 Hn1)
    as (r1 & Him1 & Hc1 & Hi1 & Hr1 & Hcnt1); [rewrite Hg1; apply Hnone|].
  destruct (handle_add_command_fresh E2 _ g2 p2 Hn2)
    as (r2 & Him2 & Hc2 & Hi2 & Hr2 & Hcnt2); [rewrite Hg2; apply Hnone|].
  set (s1 := handle_add_command E1 s g1 p1) in *.
  set (s2 := handle_add_command E2 s1 g2 p2) in *.
  pose proof (wf_counter _ Hwf) as Hpos.
  rewrite wrap_size_small in Hcnt1 by lia.
  assert (Hold : forall r, r ∈ kept add_trim_predicate (images s) ->
                           internal_id r < internal_id_counter s).
  { intros r Hr. apply elem_of_kept in Hr.
    apply (wf_issued _ Hwf r), Hr. }
  assert (Hk2 : kept add_trim_predicate (images s1)
                = kept add_trim_predicate
                    (kept add_trim_predicate (images s))).
  { rewrite Him1, kept_snoc.
    assert (Hp : add_trim_predicate r1 = true).
    { unfold add_trim_predicate. rewrite Hc1, Hg1, Hr1.
      apply orb_true_r. }
    rewrite Hp. reflexivity. }
  assert (Hold2 : forall r, r ∈ kept add_trim_predicate (images s1) ->
                            internal_id r < internal_id_counter s).
  { intros r Hr. rewrite Hk2 in Hr. apply elem_of_kept in Hr.
    apply Hold, Hr. }
  split; [|split].
  - exists (length (kept add_trim_predicate (images s))). split.
    + apply (img_by_internal_id_last _ _ r1); auto.
      intros r Hr. specialize (Hold r Hr). lia.
    + unfold img_at. rewrite Him1, lookup_app_r, Nat.sub_diag by lia.
      cbn. congruence.
  - exists (length (kept add_trim_predicate (images s1))). split.
    + apply (img_by_internal_id_last _ _ r2); auto; [congruence|].
      intros r Hr. specialize (Hold2 r Hr). lia.
    + unfold img_at. rewrite Him2, lookup_app_r, Nat.sub_diag by lia.
      cbn. congruence.
  - apply img_by_internal_id_absent. intros r Hr. rewrite Him2 in Hr.
    apply elem_of_app in Hr. destruct Hr as [Hr|Hr].
    + specialize (Hold2 r Hr). lia.
    + apply list_elem_of_singleton in Hr. subst r. lia.
Qed.

(** ** Unknown codes *)

Lemma last_snoc_event (l : list event) e : last (l ++ [e]) = Some e.
Proof. apply last_snoc. Qed.

Lemma unknown_medium_new s g : unknown_medium g -> init_img s g = true.
Proof.
  intros (Hd & _). unfold init_img.
  destruct (Z.eqb_spec (transmission g) (chr "d")); [contradiction|].
  reflexivity.
Qed.

(** The state in which a new transmission gives up on an unknown code. *)
Lemma handle_add_command_unknown E s g payload st i :
  init_img s g = true -> unknown_format g \/ unknown_medium g ->
  target_image s g = (st, i) ->
  exists f r,
    handle_add_command E s g payload = emit [Report r] (upd_img i f st) /\
    client_id (f (img_at st i)) = client_id (img_at st i) /\
    data_loaded (f (img_at st i)) = data_loaded (img_at st i) /\
    buf (load_data (f (img_at st i))) = buf (load_data (img_at st i)) /\
    mapped_file (load_data (f (img_at st i)))
    = mapped_file (load_data (img_at st i)).
Proof.
  intros Hn Hu Ht. destruct (target_image_spec _ _ _ _ Ht) as (Hi & _).
  unfold handle_add_command, resolve_image, start_image.
  rewrite Hn, Ht.
  destruct (format_size _ _ _) as [[sz aligned]|] eqn:Hsz.
  - destruct Hu as [(H1 & H2 & H3)|(H1 & H2 & H3 & H4)].
    { exfalso. revert Hsz. unfold format_size.
      rewrite (proj2 (Z.eqb_neq _ _) H1), (proj2 (Z.eqb_neq _ _) H2),
        (proj2 (Z.eqb_neq _ _) H3). discriminate. }
    unfold acquire.
    rewrite (proj2 (Z.eqb_neq _ _) H1), (proj2 (Z.eqb_neq _ _) H2),
      (proj2 (Z.eqb_neq _ _) H3), (proj2 (Z.eqb_neq _ _) H4).
    cbn [orb].
    exists (fun img => set_load_data (set_data_sz sz aligned)
                         (set_dims (data_width g) (data_height g) img)).
    eexists. split; [|auto]. f_equal. unfold upd_img, set_images.
    st_simpl. rewrite list_alter_alter_eq. reflexivity.
  - exists (set_dims (data_width g) (data_height g)). eexists.
    split; [reflexivity|auto].
Qed.

(** C2 (amended).  An unknown action code is reported and changes neither
    the store nor [loading_image].  An unknown pixel format on a command
    that starts a new transmission, and an unknown medium (which always
    starts one), are reported only after the new transmission has swept
    the store and chosen its record: [loading_image] is unchanged, the
    store is made of the records the sweep keeps, with the record of the
    command's client id reset in place or a new record appended; that
    record has no buffer and no mapping and is not loaded. *)
Theorem unknown_codes_effect E s g payload :
  ~ is_transmit g \/
  (is_transmit g /\ init_img s g = true /\
   (unknown_format g \/ unknown_medium g)) ->
  loading_image (grman_handle_command E s g payload) = loading_image s /\
  (exists r, last (log (grman_handle_command E s g payload))
             = Some (Report r)) /\
  (~ is_transmit g -> images (grman_handle_command E s g payload) = images s)
  /\
  (is_transmit g ->
   exists i r',
     (images (grman_handle_command E s g payload)
      = <[i := r']> (kept add_trim_predicate (images s)) \/
      images (grman_handle_command E s g payload)
      = kept add_trim_predicate (images s) ++ [r']) /\
     images (grman_handle_command E s g payload) !! i = Some r' /\
     client_id r' = id g /\ data_loaded r' = false /\
     buf (load_data r') = None /\ mapped_file (load_data r') = None).
Proof.
  intros [Hu|(Ht & Hn & Hu)].
  - assert (Ha : (action g =? 0) || (action g =? chr "t") = false).
    { apply orb_false_iff. split; apply Z.eqb_neq; intros H; apply Hu;
        [left|right]; exact H. }
    unfold grman_handle_command. rewrite Ha. st_simpl.
    split; [reflexivity|]. split; [eexists; apply last_snoc_event|].
    split; [reflexivity|]. intros H. contradiction.
  - rewrite (grman_handle_command_transmit _ _ _ _ Ht).
    destruct (target_image s g) as [st i] eqn:Hst.
    destruct (handle_add_command_unknown E s g payload st i Hn Hu Hst)
      as (f & r & -> & Hc & Hl & Hb & Hm).
    destruct (target_image_spec _ _ _ _ Hst)
      as (Hi & Hl0 & Hc0 & Hb0 & _ & _ & Hm0 & Hload & _ & Hshape).
    st_simpl. split; [exact Hload|].
    split; [eexists; apply last_snoc_event|].
    split; [intros H; contradiction|]. intros _.
    exists i, (f (img_at st i)).
    rewrite !alter_as_insert. fold (img_at st i).
    split; [|split; [apply list_lookup_insert_eq, Hi|]].
    + destruct Hshape as [(old & _ & -> & _)|(_ & -> & -> & _)].
      * left. apply list_insert_insert_eq.
      * right. rewrite insert_app_r_alt, Nat.sub_diag by lia. reflexivity.
    + repeat split; congruence.
Qed.

(** ** The pending load *)

Lemma file_medium_tests g :
  file_medium g ->
  (transmission g =? chr "d") = false /\
  (transmission g =? chr "f") || (transmission g =? chr "t")
  || (transmission g =? chr "s") = true.
Proof. intros [H|[H|H]]; rewrite H; split; reflexivity. Qed.

Lemma start_image_file s g st i sz aligned :
  file_medium g -> expected_size g = Some (sz, aligned) ->
  target_image s g = (st, i) ->
  exists s1,
    start_image s g = Go s1 i /\ resolve_image s g = Go s1 i /\
    (i < length (images s1))%nat /\
    img_at s1 i = started_file g sz aligned (img_at st i) /\
    log s1 = log st /\ loading_image s1 = loading_image s /\
    next_addr s1 = next_addr s.
Proof.
  intros Hm Hsz Ht. destruct (file_medium_tests g Hm) as [Hd _].
  destruct (target_image_spec _ _ _ _ Ht)
    as (Hi & _ & _ & _ & _ & _ & _ & Hl & Ha & _).
  assert (Hn : init_img s g = true).
  { unfold init_img. rewrite Hd. reflexivity. }
  unfold resolve_image. rewrite Hn. unfold start_image.
  rewrite Ht, Hd. rewrite img_at_upd_img by exact Hi. img_simpl.
  unfold expected_size in Hsz. rewrite Hsz.
  eexists. split; [reflexivity|]. split; [reflexivity|].
  split; [len|]. split; [norm; reflexivity|]. auto.
Qed.

(** C3 (amended).  After any command [loading_image] is zero, or what it
    was before the command, or the internal id of a record of the store
    that is not loaded yet; it is always an internal id that has been
    issued.  It can name a record that a sweep has removed: only a
    continuation chunk resets it, when it finds no record under that id
    (the error is reported and the store is unchanged).  The other
    errors do not reset it.  An unknown action, an unknown format or
    medium of a new transmission, and a file that cannot be opened leave
    it as it was.  A direct chunk that is rejected as too large leaves it
    as it was when the chunk continues a load or comes without the "more"
    flag; a first chunk with the flag has made its record the pending
    load before it is rejected. *)
Theorem loading_image_after_command E s g payload :
  wf s -> internal_id_counter s + 1 < size_mod -> 0 <= payload_sz g ->
  (loading_image (grman_handle_command E s g payload) = 0 \/
   loading_image (grman_handle_command E s g payload) = loading_image s \/
   exists r,
     r ∈ images (grman_handle_command E s g payload) /\
     internal_id r = loading_image (grman_handle_command E s g payload) /\
     data_loaded r = false) /\
  0 <= loading_image (grman_handle_command E s g payload)
    < internal_id_counter (grman_handle_command E s g payload) /\
  (is_transmit g -> init_img s g = false ->
   img_by_internal_id s (loading_image s) = None ->
   grman_handle_command E s g payload
   = emit [Report NonExistentImage] (set_loading_image 0 s)) /\
  (~ is_transmit g \/
   (is_transmit g /\ init_img s g = true /\
    (unknown_format g \/ unknown_medium g)) ->
   loading_image (grman_handle_command E s g payload) = loading_image s) /\
  (is_transmit g -> file_medium g ->
   (exists sz aligned, expected_size g = Some (sz, aligned)) ->
   sys_open E (transmission g =? chr "s") payload = -1 ->
   loading_image (grman_handle_command E s g payload) = loading_image s) /\
  (is_transmit g -> transmission g = chr "d" ->
   forall s1 i,
     resolve_image s g = Go s1 i ->
     payload_sz g >=
       buf_capacity (load_data (img_at s1 i))
       - buf_used (load_data (img_at s1 i)) ->
     grman_handle_command E s g payload = emit [Report TooMuchData] s1 /\
     (init_img s g = false \/ more g = 0 ->
      loading_image (grman_handle_command E s g payload)
      = loading_image s) /\
     (init_img s g = true -> more g <> 0 ->
      loading_image s = 0 /\
      loading_image (grman_handle_command E s g payload)
      = internal_id (img_at (grman_handle_command E s g payload) i) /\
      0 < loading_image (grman_handle_command E s g payload))).
Proof.
  intros Hwf Hc Hp.
  split; [|split; [|split; [|split; [|split]]]].
  - unfold grman_handle_command.
    destruct (_ || _); [|right; left; reflexivity].
    assert (Hstep : forall v file i st,
      (i < length (images st))%nat -> loading_image st = loading_image s ->
      touch v file i st (handle_add_command E s g payload) ->
      loading_image (handle_add_command E s g payload) = 0 \/
      loading_image (handle_add_command E s g payload) = loading_image s \/
      exists r,
        r ∈ images (handle_add_command E s g payload) /\
        internal_id r = loading_image (handle_add_command E s g payload) /\
        data_loaded r = false).
    { intros v file i st Hi Hl T.
      destruct (t_loading _ _ _ _ _ T) as [H|[H|(_ & H1 & H2)]];
        [right; left; congruence|left; exact H|].
      right; right. exists (img_at (handle_add_command E s g payload) i).
      split; [|auto].
      eapply list_elem_of_lookup_2, lookup_img_at.
      rewrite (touch_length _ _ _ _ _ T). exact Hi. }
    destruct (init_img s g) eqn:Hn.
    + destruct (target_image s g) as [st i] eqn:Ht.
      destruct (target_image_spec _ _ _ _ Ht)
        as (Hi & _ & _ & _ & _ & _ & _ & Hl & _).
      eapply Hstep; [exact Hi|exact Hl|].
      apply handle_add_command_new; assumption.
    + destruct (img_by_internal_id s (loading_image s)) as [i|] eqn:Hf.
      * destruct (img_by_internal_id_Some _ _ _ Hf) as (Hi & _).
        eapply Hstep; [exact Hi|reflexivity|].
        apply handle_add_command_continue; assumption.
      * rewrite handle_add_command_gone by assumption. left. reflexivity.
  - apply (wf_loading _ (wf_grman_handle_command E s g payload Hwf Hc Hp)).
  - intros Ht Hn Hf. rewrite (grman_handle_command_transmit _ _ _ _ Ht).
    apply handle_add_command_gone; assumption.
  - intros [Hu|(Ht & Hn & Hu)].
    + assert (Ha : (action g =? 0) || (action g =? chr "t") = false).
      { apply orb_false_iff. split; apply Z.eqb_neq; intros H; apply Hu;
          [left|right]; exact H. }
      unfold grman_handle_command. rewrite Ha. reflexivity.
    + rewrite (grman_handle_command_transmit _ _ _ _ Ht).
      destruct (target_image s g) as [st i] eqn:Hst.
      destruct (handle_add_command_unknown E s g payload st i Hn Hu Hst)
        as (f & r & -> & _).
      destruct (target_image_spec _ _ _ _ Hst)
        as (_ & _ & _ & _ & _ & _ & _ & Hload & _).
      st_simpl. exact Hload.
  - intros Ht Hm (sz & aligned & Hsz) Ho.
    rewrite (grman_handle_command_transmit _ _ _ _ Ht).
    destruct (file_medium_tests g Hm) as [Hd Hfts].
    destruct (target_image s g) as [st i] eqn:Hst.
    destruct (start_image_file _ _ _ _ _ _ Hm Hsz Hst)
      as (s1 & _ & Hr & _ & _ & _ & Hload1 & _).
    unfold handle_add_command, acquire, acquire_file.
    rewrite Hr, Hd, Hfts, Ho, Z.eqb_refl. st_simpl. exact Hload1.
  - intros Ht Hd s1 i Hr Hge.
    rewrite (grman_handle_command_transmit _ _ _ _ Ht).
    destruct (resolve_image_direct _ _ _ _ Hwf Hd Hr) as (Hi & Hok & Hl).
    assert (Heq : handle_add_command E s g payload
                  = emit [Report TooMuchData] s1).
    { unfold handle_add_command, acquire.
      rewrite Hr, Hd, Z.eqb_refl.
      rewrite (acquire_direct_rejects s1 i g payload Hok Hge). reflexivity. }
    rewrite Heq. split; [reflexivity|]. st_simpl. rewrite img_at_emit.
    unfold resolve_image in Hr. destruct (init_img s g) eqn:Hn.
    + destruct (start_image_direct _ _ _ _ Hd Hr)
        as (st & sz & al & Hst & _ & _ & Hat & Hload & _).
      destruct (wf_target_image _ _ _ _ Hwf Hc Hst) as [W1 _].
      destruct (target_image_spec _ _ _ _ Hst) as (Hi0 & _).
      pose proof (list_elem_of_lookup_2 _ _ _ (lookup_img_at _ _ Hi0)) as Hin.
      pose proof (wf_issued _ W1 _ Hin) as Hpos.
      split.
      * intros [H|Hm]; [discriminate|]. rewrite Hload, Hm. reflexivity.
      * intros _ Hm. apply Z.eqb_neq in Hm. rewrite Hload, Hm, Hat.
        split; [|split; [reflexivity|lia]].
        unfold init_img in Hn. rewrite Hd, Z.eqb_refl, Hm in Hn.
        cbn [negb andb] in Hn.
        destruct (Z.eqb_spec (loading_image s) 0); [assumption|discriminate].
    + unfold continue_image in Hr.
      destruct (img_by_internal_id s (loading_image s)); [|discriminate].
      injection Hr as <- <-. split; [reflexivity|discriminate].
Qed.

(** ** Reusing a client id *)






Lemma found_middle cid l1 x l2 :
  cid <> 0 -> (forall r, r ∈ l1 -> client_id r <> cid) -> client_id x = cid ->
  found cid (l1 ++ x :: l2) = Some (length l1, x).
Proof.
  intros Hc Hl Hx. unfold found.
  rewrite (proj2 (Z.eqb_neq _ _) Hc).
  rewrite list_find_app_r.
  - cbn. rewrite decide_True by exact Hx. reflexivity.
  - apply list_find_None, Forall_forall. exact Hl.
Qed.




(** ** Concrete runs *)

Lemma one_image_wf : wf one_image.
Proof.
  apply wf_grman_handle_command; [apply wf_grman_new|reflexivity|].
  cbn. lia.
Qed.

Lemma pending_wf : wf pending.
Proof.
  apply wf_grman_handle_command; [apply wf_grman_new|reflexivity|].
  cbn. lia.
Qed.

Lemma oversized_chunk_rejected_witness :
  handle_add_command no_files grman_new (transmit 0 RGBA 0 0 2 1 px19) px19
  = emit [Report TooMuchData]
      (resolved grman_new (transmit 0 RGBA 0 0 2 1 px19)) /\
  data_loaded
    (img_at
       (handle_add_command no_files grman_new
          (transmit 0 RGBA 0 0 2 1 px19) px19) 0) = false.
Proof.
  destruct (oversized_chunk_rejected no_files grman_new
              (transmit 0 RGBA 0 0 2 1 px19) px19
              (resolved grman_new (transmit 0 RGBA 0 0 2 1 px19)) 0
              wf_grman_new eq_refl eq_refl (or_intror eq_refl))
    as (H1 & _ & _ & H2 & _).
  split; [exact H1|exact H2].
Defined.

Lemma oversized_continuation_example :
  handle_add_command no_files pending (transmit 0 RGBA 1 0 2 1 px18) px18
  = emit [Report TooMuchData] pending.
Proof. vm_compute. reflexivity. Qed.

Lemma exact_fit_chunk_rejected_witness :
  handle_add_command no_files grman_new (transmit 0 RGBA 0 0 2 1 px18) px18
  = emit [Report TooMuchData]
      (resolved grman_new (transmit 0 RGBA 0 0 2 1 px18)).
Proof.
  apply (exact_fit_chunk_rejected no_files grman_new
           (transmit 0 RGBA 0 0 2 1 px18) px18
           (resolved grman_new (transmit 0 RGBA 0 0 2 1 px18)) 0
           wf_grman_new eq_refl eq_refl eq_refl).
Defined.

Lemma rgba_2x1_direct_scenario_witness :
  data_loaded
    (img_at (grman_handle_command no_files grman_new
               (transmit 0 RGBA 0 0 2 1 px8) px8) 0) = true /\
  pixel_data
    (img_at (grman_handle_command no_files grman_new
               (transmit 0 RGBA 0 0 2 1 px8) px8) 0) = Some px8.
Proof.
  destruct (rgba_2x1_direct_scenario no_files grman_new
              (transmit 0 RGBA 0 0 2 1 px8) px8
              (fst (target_image grman_new (transmit 0 RGBA 0 0 2 1 px8))) 0
              (or_intror eq_refl) eq_refl eq_refl eq_refl eq_refl eq_refl
              eq_refl eq_refl eq_refl) as [H _].
  destruct (H eq_refl) as (H1 & _ & _ & H2 & _).
  split; [exact H1|exact H2].
Defined.

Lemma rgba_2x1_short_example :
  data_loaded
    (img_at (grman_handle_command no_files grman_new
               (transmit 0 RGBA 0 0 2 1 px4) px4) 0) = false /\
  log (grman_handle_command no_files grman_new
         (transmit 0 RGBA 0 0 2 1 px4) px4)
  = [Report (InsufficientData 4 8)].
Proof. vm_compute. split; reflexivity. Qed.

Lemma inflate_zlib_exact_witness :
  fst (inflate_zlib zlib_8 one_image 0 deflated_px8 16) = true /\
  buf (load_data
         (img_at (snd (inflate_zlib zlib_8 one_image 0 deflated_px8 16)) 0))
  = Some {| addr := 2; bytes := px8 |} /\
  log (snd (inflate_zlib zlib_8 one_image 0 deflated_px8 16)) = [Free 1].
Proof.
  assert (H1 : (0 < length (images one_image))%nat) by (vm_compute; lia).
  assert (H2 : 0 <= data_sz (load_data (img_at one_image 0)) < size_mod)
    by (vm_compute; split; [discriminate|reflexivity]).
  assert (H3 : zlib_inflate zlib_8
                 (take (Z.to_nat (wrap_u32 16)) deflated_px8)
                 (wrap_u32 (data_sz (load_data (img_at one_image 0))))
               = (Z_STREAM_END, 0, px8))
    by (vm_compute; reflexivity).
  destruct (inflate_zlib_exact zlib_8 one_image 0 deflated_px8 16
              Z_STREAM_END 0 px8 H1 H2 H3)
    as (G1 & _ & G3).
  assert (Hok : fst (inflate_zlib zlib_8 one_image 0 deflated_px8 16) = true)
    by (apply G1; repeat split).
  destruct (G3 Hok) as (Hrec & Hlog & _).
  split; [exact Hok|]. rewrite Hrec, Hlog. split; vm_compute; reflexivity.
Defined.

Lemma inflate_zlib_short_buffer_example :
  fst (inflate_zlib zlib_8
         (grman_handle_command no_files grman_new
            (transmit 0 RGBA 0 5 1 1 px4) px4) 0 deflated_px8 16) = false /\
  images (snd (inflate_zlib zlib_8
                 (grman_handle_command no_files grman_new
                    (transmit 0 RGBA 0 5 1 1 px4) px4) 0 deflated_px8 16))
  = images (grman_handle_command no_files grman_new
              (transmit 0 RGBA 0 5 1 1 px4) px4).
Proof. vm_compute. split; reflexivity. Qed.

Lemma three_commands_example :
  client_id <$> images (run three_commands grman_new) = [5; 6].
Proof. vm_compute. reflexivity. Qed.

Lemma anonymous_transmissions_do_not_collide_witness :
  img_by_internal_id
    (handle_add_command no_files
       (handle_add_command no_files grman_new
          (transmit 0 RGBA 0 0 2 1 px8) px8)
       (transmit 0 RGBA 0 0 2 1 px8) px8) 1 = None.
Proof.
  apply (anonymous_transmissions_do_not_collide no_files no_files grman_new
           (transmit 0 RGBA 0 0 2 1 px8) (transmit 0 RGBA 0 0 2 1 px8)
           px8 px8 wf_grman_new eq_refl eq_refl eq_refl eq_refl eq_refl).
Defined.

(** C1, as stated, fails: the first anonymous record is in the store after
    the first command and gone after the second. *)
Lemma anonymous_record_swept :
  img_by_internal_id
    (grman_handle_command no_files grman_new
       (transmit 0 RGBA 0 0 2 1 px8) px8) 1 = Some 0%nat /\
  img_by_internal_id
    (grman_handle_command no_files
       (grman_handle_command no_files grman_new
          (transmit 0 RGBA 0 0 2 1 px8) px8)
       (transmit 0 RGBA 0 0 2 1 px8) px8) 1 = None /\
  (internal_id <$>
   images
     (grman_handle_command no_files
        (grman_handle_command no_files grman_new
           (transmit 0 RGBA 0 0 2 1 px8) px8)
        (transmit 0 RGBA 0 0 2 1 px8) px8)) = [2].
Proof. vm_compute. repeat split; reflexivity. Qed.

Lemma unknown_codes_effect_witness :
  loading_image
    (grman_handle_command no_files one_image (transmit 0 99 0 5 2 1 px8) px8)
  = loading_image one_image.
Proof.
  apply (unknown_codes_effect no_files one_image
           (transmit 0 99 0 5 2 1 px8) px8).
  right. split; [right; reflexivity|]. split; [reflexivity|].
  left. repeat split; discriminate.
Defined.

(** C2, as stated, fails: a command with the unknown format code 99 and
    the client id of a loaded image leaves that image not loaded and
    without its buffer. *)
Lemma unknown_format_resets_image :
  data_loaded (img_at one_image 0) = true /\
  data_loaded
    (img_at (grman_handle_command no_files one_image
               (transmit 0 99 0 5 2 1 px8) px8) 0) = false /\
  buf (load_data
         (img_at (grman_handle_command no_files one_image
                    (transmit 0 99 0 5 2 1 px8) px8) 0)) = None /\
  images (grman_handle_command no_files one_image
            (transmit 0 99 0 5 2 1 px8) px8) <> images one_image.
Proof. vm_compute. repeat split; discriminate. Qed.

Lemma loading_image_after_command_witness :
  0 <= loading_image
         (grman_handle_command no_files pending
            (transmit (chr "f") RGBA 0 0 2 1 px4) px4)
    < internal_id_counter
        (grman_handle_command no_files pending
           (transmit (chr "f") RGBA 0 0 2 1 px4) px4).
Proof.
  assert (H1 : internal_id_counter pending + 1 < size_mod)
    by (vm_compute; reflexivity).
  assert (H2 : 0 <= payload_sz (transmit (chr "f") RGBA 0 0 2 1 px4))
    by (vm_compute; discriminate).
  exact (proj1 (proj2 (loading_image_after_command no_files pending
                         (transmit (chr "f") RGBA 0 0 2 1 px4) px4
                         pending_wf H1 H2))).
Defined.

(** C3, as stated, fails: after the first chunk of a direct load, a file
    transmission whose file cannot be opened sweeps the record of the
    pending load and leaves [loading_image] naming it; and an oversized
    first chunk leaves the load pending. *)
Lemma loading_image_dangles :
  loading_image
    (grman_handle_command no_files pending
       (transmit (chr "f") RGBA 0 0 2 1 px4) px4) = 1 /\
  img_by_internal_id
    (grman_handle_command no_files pending
       (transmit (chr "f") RGBA 0 0 2 1 px4) px4) 1 = None /\
  loading_image
    (grman_handle_command no_files grman_new
       (transmit 0 RGBA 1 0 2 1 px19) px19) = 1.
Proof. vm_compute. repeat split; reflexivity. Qed.



(** C4 fails on the code.  Sixty-four transmissions with distinct client
    ids fill the array of the new manager, and nothing is amiss.  The
    next one makes ensure_space grow the array, and ensure_space zeroes
    the 64 new slots through the pointer it passed to realloc: from this
    command on the store of the program is not defined. *)
Lemma sixty_fifth_record_is_undefined :
  length (images (run (distinct_transmissions 64) grman_new)) = 64%nat /\
  images_capacity (run (distinct_transmissions 64) grman_new) = 64 /\
  log (run (distinct_transmissions 64) grman_new) = [] /\
  log (run (distinct_transmissions 65) grman_new)
  = [Undefined (StaleMemset 64 64)].
Proof. vm_compute. repeat split; reflexivity. Qed.

(** C7 fails on the code.  The 8 bytes sent as one chunk load the image;
    sent as a chunk of 4 with "more" and a final chunk of 4, the final
    chunk starts a new transmission: the record of the first chunk is
    swept, the new record holds the last 4 bytes only and is not loaded. *)
Lemma chunked_transmission_restarts :
  let one := run [(no_files, transmit 0 RGBA 0 0 2 1 px8, px8)] grman_new in
  let two := run [(no_files, transmit 0 RGBA 1 0 2 1 px4, px4);
                  (no_files, transmit 0 RGBA 0 0 2 1 px4', px4')] grman_new in
  data_loaded (img_at one 0) = true /\
  pixel_data (img_at one 0) = Some px8 /\
  data_loaded (img_at two 0) = false /\
  buf_used (load_data (img_at two 0)) = 4 /\
  IB (load_data (img_at two 0)) = px4' /\
  internal_id <$> images two = [2] /\
  log two = [Free 1; Report (InsufficientData 4 8)].
Proof. vm_compute. repeat split; reflexivity. Qed.

(** ** More on the sweep *)

(** The loop of remove_images visits the array from its end and compacts
    it in place; as a whole it keeps exactly the records that fail the
    predicate, in their order, releases the others from the last to the
    first, and leaves the rest of the manager alone. *)
Theorem remove_images_is_filter p s :
  images (remove_images p s) = kept p (images s) /\
  log (remove_images p s) = log s ++ swept_events p (images s) /\
  (forall r, r ∈ images (remove_images p s) <-> r ∈ images s /\ p r = false)
  /\
  loading_image (remove_images p s) = loading_image s /\
  images_capacity (remove_images p s) = images_capacity s /\
  internal_id_counter (remove_images p s) = internal_id_counter s /\
  next_addr (remove_images p s) = next_addr s.
Proof.
  rewrite remove_images_spec. st_simpl.
  split; [reflexivity|]. split; [reflexivity|].
  split; [|repeat split; reflexivity].
  intros r. rewrite elem_of_kept. tauto.
Qed.

(** ** The capacity of the array *)

Lemma length_kept p (l : list Image) : (length (kept p l) <= length l)%nat.
Proof. unfold kept. apply length_filter. Qed.

Lemma command_without_growth E s g payload :
  ~ appends_to_full s g ->
  images_capacity (grman_handle_command E s g payload) = images_capacity s /\
  (length (images (grman_handle_command E s g payload))
   <= length (images s) + 1)%nat /\
  (Z.of_nat (length (images (grman_handle_command E s g payload)))
   <= images_capacity s \/
   (length (images (grman_handle_command E s g payload))
    <= length (images s))%nat).
Proof.
  intros Hno. unfold grman_handle_command.
  destruct (_ || _) eqn:Ha; [|st_simpl; split; [|split; [|right]]; auto; lia].
  assert (Ht : is_transmit g).
  { apply orb_true_iff in Ha. destruct Ha as [Ha|Ha];
      apply Z.eqb_eq in Ha; [left|right]; exact Ha. }
  pose proof (length_kept add_trim_predicate (images s)) as Hk.
  destruct (init_img s g) eqn:Hn.
  - destruct (target_image s g) as [st i] eqn:Hti.
    pose proof (handle_add_command_new E s g payload st i Hn Hti) as T.
    rewrite (t_capacity _ _ _ _ _ T), (touch_length _ _ _ _ _ T).
    destruct (found (id g) (kept add_trim_predicate (images s)))
      as [[j old]|] eqn:Hf.
    + rewrite (target_image_existing _ _ _ _ Hf) in Hti.
      apply pair_equal_spec in Hti as [<- _]. st_simpl.
      rewrite length_alter. split; [reflexivity|]. split; [lia|right; lia].
    + rewrite (target_image_new _ _ Hf) in Hti.
      apply pair_equal_spec in Hti as [<- _]. st_simpl.
      rewrite length_app. cbn [length]. unfold ensure_space.
      destruct (Z.ltb_spec
                  (Z.of_nat (length (kept add_trim_predicate (images s))))
                  (images_capacity s)) as [Hlt|Hge].
      * cbn [fst]. split; [reflexivity|]. split; [lia|left; lia].
      * exfalso. apply Hno. repeat split; assumption.
  - destruct (img_by_internal_id s (loading_image s)) as [i|] eqn:Hf.
    + pose proof (handle_add_command_continue E s g payload i Hn Hf) as T.
      rewrite (t_capacity _ _ _ _ _ T), (touch_length _ _ _ _ _ T).
      split; [reflexivity|]. split; [lia|right; lia].
    + rewrite handle_add_command_gone by assumption. st_simpl.
      split; [reflexivity|]. split; [lia|right; lia].
Qed.

Lemma room_excludes_growth s g :
  Z.of_nat (length (images s)) < images_capacity s -> ~ appends_to_full s g.
Proof.
  intros Hr (_ & _ & _ & Hfull).
  pose proof (length_kept add_trim_predicate (images s)). lia.
Qed.




(** ensure_space leaves the defined behaviour exactly on a full array.  A
    command that appends a record to a full array doubles the capacity
    and zeroes through the stale pointer, which the log records right
    after the releases of the sweep.  Every other command leaves the
    capacity as it is and, when the records were within the capacity,
    keeps them within it. *)
Theorem full_array_append_is_undefined E s g payload :
  (appends_to_full s g ->
   images_capacity (grman_handle_command E s g payload)
   = wrap_size (images_capacity s * 2) /\
   exists evs,
     log (grman_handle_command E s g payload)
     = log s ++ swept_events add_trim_predicate (images s)
       ++ Undefined (StaleMemset (images_capacity s) (images_capacity s))
          :: evs) /\
  (~ appends_to_full s g ->
   images_capacity (grman_handle_command E s g payload) = images_capacity s /\
   (has_room s -> has_room (grman_handle_command E s g payload))).
Proof.
  split.
  - intros (Ht & Hn & Hf & Hfull).
    rewrite (grman_handle_command_transmit _ _ _ _ Ht).
    destruct (target_image s g) as [st i] eqn:Hti.
    pose proof (handle_add_command_new E s g payload st i Hn Hti) as T.
    rewrite (t_capacity _ _ _ _ _ T).
    destruct (t_log _ _ _ _ _ T) as [evs Hlog]. rewrite Hlog.
    rewrite (target_image_new _ _ Hf) in Hti.
    apply pair_equal_spec in Hti as [<- _]. st_simpl.
    unfold ensure_space.
    destruct (Z.ltb_spec
                (Z.of_nat (length (kept add_trim_predicate (images s))))
                (images_capacity s)) as [Hlt|Hge]; [lia|].
    cbn [fst snd]. split; [reflexivity|]. exists evs.
    rewrite <- !app_assoc. reflexivity.
  - intros Hno.
    destruct (command_without_growth E s g payload Hno) as (Hc & _ & Hl).
    split; [exact Hc|]. intros [Hpos Hlen]. unfold has_room.
    rewrite Hc. split; [exact Hpos|]. destruct Hl as [Hl|Hl]; lia.
Qed.

(** ** The invariant along a run *)

Lemma counter_step s c :
  wf s -> internal_id_counter s + 1 < size_mod ->
  internal_id_counter s <= internal_id_counter (step s c)
    <= internal_id_counter s + 1.
Proof.
  intros Hwf Hc. destruct c as [[E g] payload].
  pose proof (wf_counter _ Hwf) as Hpos.
  unfold step, grman_handle_command. cbn [fst snd].
  destruct (_ || _); [|st_simpl; lia].
  destruct (init_img s g) eqn:Hn.
  - destruct (target_image s g) as [st i] eqn:Ht.
    rewrite (t_counter _ _ _ _ _
               (handle_add_command_new E s g payload st i Hn Ht)).
    destruct (target_image_spec _ _ _ _ Ht)
      as (_ & _ & _ & _ & _ & _ & _ & _ & _ &
          [(old & _ & _ & ->)|(_ & _ & _ & ->)]); [lia|].
    rewrite wrap_size_small by lia. lia.
  - destruct (img_by_internal_id s (loading_image s)) as [i|] eqn:Hf.
    + rewrite (t_counter _ _ _ _ _
                 (handle_add_command_continue E s g payload i Hn Hf)). lia.
    + rewrite handle_add_command_gone by assumption. st_simpl. lia.
Qed.

(** Every state a sequence of commands reaches from a state with the
    invariant has the invariant, as long as the array has room for one
    record per command, so that it never has to grow, the counter of
    internal ids cannot wrap, and every payload size is a size.  The
    capacity stays as it is, each command appends at most one record and
    issues at most one internal id. *)
Theorem wf_run cmds s :
  wf s ->
  room_for (length cmds) s ->
  internal_id_counter s + Z.of_nat (length cmds) < size_mod ->
  Forall (fun c : command => 0 <= payload_sz (snd (fst c))) cmds ->
  wf (run cmds s) /\
  images_capacity (run cmds s) = images_capacity s /\
  (length (images (run cmds s)) <= length (images s) + length cmds)%nat /\
  internal_id_counter s <= internal_id_counter (run cmds s)
    <= internal_id_counter s + Z.of_nat (length cmds).
Proof.
  revert s. induction cmds as [|c cmds IH]; intros s Hwf Hr Hc Hp.
  - cbn. split; [exact Hwf|]. split; [reflexivity|]. split; lia.
  - unfold room_for in Hr. cbn [length] in Hc, Hr.
    rewrite Nat2Z.inj_succ in Hc, Hr.
    apply Forall_cons in Hp. destruct Hp as [Hp0 Hp].
    assert (Hc1 : internal_id_counter s + 1 < size_mod) by lia.
    pose proof (counter_step s c Hwf Hc1) as Hs.
    destruct c as [[E g] payload]. cbn [fst snd] in Hp0.
    change (step s (E, g, payload))
      with (grman_handle_command E s g payload) in Hs.
    destruct (command_without_growth E s g payload
                (room_excludes_growth s g ltac:(lia)))
      as (Hcap & Hlen & _).
    assert (W1 : wf (grman_handle_command E s g payload))
      by (apply wf_grman_handle_command; assumption).
    destruct (IH (grman_handle_command E s g payload) W1)
      as (W2 & Hcap2 & Hlen2 & Hcnt); [unfold room_for; lia|lia|exact Hp|].
    cbn [run foldl]. fold (run cmds (step s (E, g, payload))).
    change (step s (E, g, payload))
      with (grman_handle_command E s g payload).
    split; [exact W2|]. split; [congruence|]. cbn [length].
    rewrite Nat2Z.inj_succ. split; lia.
Qed.

Lemma wf_run_witness :
  wf (run three_commands grman_new).
Proof.
  apply (wf_run three_commands grman_new wf_grman_new).
  - unfold room_for. vm_compute. discriminate.
  - vm_compute. reflexivity.
  - repeat constructor; vm_compute; discriminate.
Defined.

(** ** Looking records up *)

Lemma found_insert cid (l : list Image) i r r' :
  found cid l = Some (i, r) -> client_id r' = cid ->
  found cid (<[i := r']> l) = Some (i, r').
Proof.
  unfold found. destruct (cid =? 0); [discriminate|].
  intros H Hc. apply list_find_Some in H. destruct H as (Hl & _ & Hlt).
  apply list_find_Some. split; [|split; [exact Hc|]].
  - apply list_lookup_insert_eq. eapply lookup_lt_Some; eauto.
  - intros j y Hj Hji. rewrite list_lookup_insert_ne in Hj by lia. eauto.
Qed.

Lemma found_snoc cid (l : list Image) r :
  cid <> 0 -> found cid l = None -> client_id r = cid ->
  found cid (l ++ [r]) = Some (length l, r).
Proof.
  intros Hc Hf Hr. destruct (found_None _ _ Hf) as [H0|H0]; [contradiction|].
  rewrite <- (app_nil_r (l ++ [r])), <- app_assoc. cbn [app].
  apply found_middle; assumption.
Qed.

(** A new transmission with a nonzero client id leaves a record that the
    scan by client id finds again: find_or_create_image on the resulting
    store returns the record the command worked on, as an existing one and
    without changing the store.  When the id was already in the store, the
    record keeps its place, its internal id and its reference count. *)
Theorem transmitted_id_is_found E s g payload st i :
  init_img s g = true -> id g <> 0 -> target_image s g = (st, i) ->
  find_or_create_image (handle_add_command E s g payload) (id g)
  = (handle_add_command E s g payload, i, true) /\
  client_id (img_at (handle_add_command E s g payload) i) = id g /\
  (forall old,
     found (id g) (kept add_trim_predicate (images s)) = Some (i, old) ->
     internal_id (img_at (handle_add_command E s g payload) i)
     = internal_id old /\
     refcnt (img_at (handle_add_command E s g payload) i) = refcnt old).
Proof.
  intros Hn Hg Ht.
  pose proof (handle_add_command_new E s g payload st i Hn Ht) as T.
  destruct (target_image_spec _ _ _ _ Ht)
    as (Hi & _ & Hc & _ & _ & _ & _ & _ & _ & Hshape).
  assert (Hst : exists r, found (id g) (images st) = Some (i, r)).
  { destruct Hshape as [(old & Hf & -> & _)|(Hf & -> & -> & _)].
    - eexists. eapply found_insert; [exact Hf|].
      apply found_Some in Hf. apply Hf.
    - eexists. apply found_snoc; auto. }
  destruct Hst as [r Hst].
  assert (Hcl : client_id (img_at (handle_add_command E s g payload) i)
                = id g).
  { rewrite (t_client _ _ _ _ _ T). exact Hc. }
  split; [|split; [exact Hcl|]].
  - eapply find_or_create_image_found.
    rewrite (t_images _ _ _ _ _ T).
    eapply found_insert; [exact Hst|exact Hcl].
  - intros old Hf.
    rewrite (t_internal _ _ _ _ _ T), (t_refcnt _ _ _ _ _ T).
    rewrite (target_image_existing _ _ _ _ Hf) in Ht.
    apply pair_equal_spec in Ht as [<- _].
    apply found_Some in Hf. destruct Hf as (_ & Hl & _).
    rewrite img_at_upd_img by (st_simpl; eapply lookup_lt_Some; exact Hl).
    split; reflexivity.
Qed.

Lemma transmitted_id_is_found_witness :
  find_or_create_image
    (handle_add_command no_files one_image
       (transmit 0 RGBA 0 5 2 1 px4') px4') 5
  = (handle_add_command no_files one_image
       (transmit 0 RGBA 0 5 2 1 px4') px4', 0%nat, true).
Proof.
  assert (H1 : init_img one_image (transmit 0 RGBA 0 5 2 1 px4') = true)
    by (vm_compute; reflexivity).
  assert (H2 : id (transmit 0 RGBA 0 5 2 1 px4') <> 0)
    by (vm_compute; discriminate).
  assert (H3 : target_image one_image (transmit 0 RGBA 0 5 2 1 px4')
               = (fst (target_image one_image
                         (transmit 0 RGBA 0 5 2 1 px4')), 0%nat))
    by (vm_compute; reflexivity).
  exact (proj1 (transmitted_id_is_found no_files one_image
                  (transmit 0 RGBA 0 5 2 1 px4') px4' _ 0 H1 H2 H3)).
Defined.

(** In a state with the invariant the scan by internal id is exact: it
    returns a slot exactly when that slot holds a record with the id, and
    nothing exactly when no record has it. *)
Theorem img_by_internal_id_exact s iid :
  wf s ->
  (forall i, img_by_internal_id s iid = Some i <->
             exists r, images s !! i = Some r /\ internal_id r = iid) /\
  (img_by_internal_id s iid = None <->
   forall r, r ∈ images s -> internal_id r <> iid).
Proof.
  intros Hwf. split.
  - intros i. split.
    + intros H. destruct (img_by_internal_id_Some _ _ _ H) as (Hi & Hid & _).
      exists (img_at s i). split; [apply lookup_img_at, Hi|exact Hid].
    + intros (r & Hl & Hid). unfold img_by_internal_id.
      rewrite (proj2 (list_find_Some _ _ i r)); [reflexivity|].
      split; [exact Hl|]. split; [exact Hid|].
      intros j y Hj Hlt He.
      assert (j = i)
        by (apply (wf_internal _ Hwf j i y r); auto; congruence).
      lia.
  - split; [apply img_by_internal_id_None|apply img_by_internal_id_absent].
Qed.

Lemma img_by_internal_id_exact_witness :
  img_by_internal_id one_image 1 = Some 0%nat.
Proof.
  apply (proj1 (img_by_internal_id_exact one_image 1 one_image_wf) 0%nat).
  exists (img_at one_image 0). split; vm_compute; reflexivity.
Defined.

(** ** What a new transmission leaves of the other records *)

(** A new transmission never keeps a record that is not loaded, or one
    that is anonymous and unreferenced, and never changes or drops another
    one: besides the record it works on, the store holds exactly the
    records of before that are loaded and named or referenced, each as it
    was. *)
Theorem new_transmission_keeps_the_loaded E s g payload st i :
  init_img s g = true -> target_image s g = (st, i) ->
  (forall j r,
     j <> i -> images (handle_add_command E s g payload) !! j = Some r ->
     r ∈ images s /\ data_loaded r = true /\
     (client_id r <> 0 \/ refcnt r <> 0)) /\
  (forall r,
     r ∈ images s -> data_loaded r = true ->
     client_id r <> 0 \/ refcnt r <> 0 ->
     client_id r <> id g \/ id g = 0 ->
     r ∈ images (handle_add_command E s g payload)).
Proof.
  intros Hn Ht.
  pose proof (handle_add_command_new E s g payload st i Hn Ht) as T.
  destruct (target_image_spec _ _ _ _ Ht)
    as (Hi & _ & _ & _ & _ & _ & _ & _ & _ & Hshape).
  assert (Hothers : forall j, j <> i ->
            images (handle_add_command E s g payload) !! j
            = kept add_trim_predicate (images s) !! j).
  { intros j Hj. rewrite (t_images _ _ _ _ _ T).
    rewrite list_lookup_insert_ne by auto.
    destruct Hshape as [(old & _ & -> & _)|(_ & -> & -> & _)].
    - apply list_lookup_insert_ne. auto.
    - destruct (Nat.lt_ge_cases j
                  (length (kept add_trim_predicate (images s)))).
      + apply lookup_app_l. exact H.
      + rewrite lookup_app_r by exact H.
        rewrite (lookup_ge_None_2 (kept _ _)) by exact H.
        destruct (j - length (kept add_trim_predicate (images s)))%nat
          eqn:Hd; [lia|reflexivity]. }
  split.
  - intros j r Hj Hl. rewrite Hothers in Hl by exact Hj.
    apply list_elem_of_lookup_2, elem_of_kept in Hl.
    destruct Hl as [Hp Hr]. apply add_trim_predicate_false in Hp.
    tauto.
  - intros r Hr Hd Hc Hg.
    assert (Hk : r ∈ kept add_trim_predicate (images s)).
    { apply elem_of_kept. split; [|exact Hr].
      unfold add_trim_predicate. rewrite Hd. cbn.
      destruct Hc as [Hc|Hc]; apply Z.eqb_neq in Hc; rewrite Hc;
        [reflexivity|apply andb_false_r]. }
    apply list_elem_of_lookup_1 in Hk. destruct Hk as [j Hj].
    assert (Hne : j <> i).
    { intros ->.
      destruct Hshape as [(old & Hf & _)|(_ & _ & -> & _)].
      - apply found_Some in Hf. destruct Hf as (H0 & Hl & Hid & _).
        rewrite Hl in Hj. injection Hj as ->. tauto.
      - apply lookup_lt_Some in Hj. lia. }
    eapply list_elem_of_lookup_2. rewrite Hothers by exact Hne. exact Hj.
Qed.

Lemma new_transmission_keeps_the_loaded_witness :
  img_at one_image 0
  ∈ images (handle_add_command no_files one_image
              (transmit 0 RGBA 0 6 2 1 px8) px8).
Proof.
  assert (H1 : init_img one_image (transmit 0 RGBA 0 6 2 1 px8) = true)
    by (vm_compute; reflexivity).
  assert (H3 : target_image one_image (transmit 0 RGBA 0 6 2 1 px8)
               = (fst (target_image one_image
                         (transmit 0 RGBA 0 6 2 1 px8)), 1%nat))
    by (vm_compute; reflexivity).
  assert (H4 : img_at one_image 0 ∈ images one_image).
  { assert (H0 : images one_image = [img_at one_image 0])
      by (vm_compute; reflexivity).
    rewrite H0. apply list_elem_of_here. }
  assert (H5 : data_loaded (img_at one_image 0) = true)
    by (vm_compute; reflexivity).
  assert (H6 : client_id (img_at one_image 0) <> 0)
    by (vm_compute; discriminate).
  assert (H7 : client_id (img_at one_image 0)
               <> id (transmit 0 RGBA 0 6 2 1 px8))
    by (vm_compute; discriminate).
  exact (proj2 (new_transmission_keeps_the_loaded no_files one_image
                  (transmit 0 RGBA 0 6 2 1 px8) px8 _ 1 H1 H3)
           (img_at one_image 0) H4 H5 (or_introl H6) (or_introl H7)).
Defined.

(** ** The pending load after a new direct transmission *)

Ltac case_all :=
  repeat match goal with
         | |- context [if ?c then _ else _] => destruct c
         | |- context [match ?x with _ => _ end] => destruct x
         end.

Lemma inflate_zlib_loading_image E s i src bufsz :
  loading_image (snd (inflate_zlib E s i src bufsz)) = loading_image s.
Proof. unfold inflate_zlib. cbn [malloc]. case_all; reflexivity. Qed.

Lemma inflate_png_loading_image E s i src :
  loading_image (snd (inflate_png E s i src)) = loading_image s.
Proof. unfold inflate_png. cbn [malloc]. case_all; reflexivity. Qed.

Lemma process_loading_image E s i g :
  loading_image (process E s i g) = loading_image s.
Proof.
  unfold process, decompress, decode.
  destruct (negb (data_loaded _)); [reflexivity|].
  destruct (_ || _).
  - destruct (compressed g =? chr "z").
    + pose proof (inflate_zlib_loading_image E s i
                    (IB (load_data (img_at s i)))
                    (IB_sz (load_data (img_at s i)))) as Hz.
      destruct (inflate_zlib _ _ _ _ _) as [[|] s1]; cbn [snd] in Hz;
        [|exact Hz].
      destruct (format g =? PNG).
      * pose proof (inflate_png_loading_image E s1 i
                      (IB (load_data (img_at s1 i)))) as Hp.
        destruct (inflate_png _ _ _ _) as [[|] s2]; cbn [snd] in Hp;
          [|st_simpl; congruence].
        case_all; st_simpl; congruence.
      * case_all; st_simpl; congruence.
    + destruct (compressed g =? 0); [|reflexivity].
      destruct (format g =? PNG).
      * pose proof (inflate_png_loading_image E s i
                      (IB (load_data (img_at s i)))) as Hp.
        destruct (inflate_png _ _ _ _) as [[|] s2]; cbn [snd] in Hp;
          [|st_simpl; congruence].
        case_all; st_simpl; congruence.
      * case_all; reflexivity.
  - case_all; reflexivity.
Qed.

(** What a new direct transmission of a known format does to the pending
    load: with the "more" flag the record it works on becomes the pending
    load, even when its first chunk is rejected as too large; without the
    flag an accepted chunk clears the pending load, whatever decoding
    makes of it, and a rejected chunk leaves it as it was. *)
Theorem loading_image_after_direct_start E s g payload s1 i :
  init_img s g = true -> transmission g = chr "d" ->
  start_image s g = Go s1 i ->
  (more g <> 0 ->
   loading_image (handle_add_command E s g payload)
   = internal_id (img_at (handle_add_command E s g payload) i)) /\
  (more g = 0 ->
   payload_sz g < buf_capacity (load_data (img_at s1 i)) ->
   loading_image (handle_add_command E s g payload) = 0) /\
  (more g = 0 ->
   payload_sz g >= buf_capacity (load_data (img_at s1 i)) ->
   loading_image (handle_add_command E s g payload) = loading_image s).
Proof.
  intros Hn Hd Hs.
  destruct (start_image_direct _ _ _ _ Hd Hs)
    as (st & sz & al & Ht & Hsz & Hi & Hat & Hload & _).
  pose proof (handle_add_command_new E s g payload st i Hn Ht) as T.
  pose proof (wrap_size_range (sz + slack g)) as Hcap.
  assert (Hcapv : buf_capacity (load_data (img_at s1 i))
                  = wrap_size (sz + slack g))
    by (rewrite Hat; reflexivity).
  assert (Hused : buf_used (load_data (img_at s1 i)) = 0)
    by (rewrite Hat; reflexivity).
  unfold handle_add_command, resolve_image in *. rewrite Hn, Hs in *.
  unfold acquire in *. rewrite Hd, Z.eqb_refl in *.
  unfold acquire_direct in *. rewrite Hcapv, Hused, Z.sub_0_r in *.
  rewrite (wrap_size_small (wrap_size _)) in * by exact Hcap.
  split; [|split].
  - intros Hm. rewrite (t_internal _ _ _ _ _ T).
    apply Z.eqb_neq in Hm. rewrite Hm in *.
    destruct (_ >=? _); [st_simpl; exact Hload|].
    rewrite process_loading_image. st_simpl. exact Hload.
  - intros Hm Hp. rewrite Hm in *.
    destruct (Z.geb_spec (payload_sz g) (wrap_size (sz + slack g)));
      [lia|].
    rewrite process_loading_image. reflexivity.
  - intros Hm Hp. rewrite Hm in *.
    destruct (Z.geb_spec (payload_sz g) (wrap_size (sz + slack g)));
      [|lia].
    st_simpl. exact Hload.
Qed.

Lemma loading_image_after_direct_start_witness :
  loading_image
    (handle_add_command no_files grman_new
       (transmit 0 RGBA 1 0 2 1 px19) px19) = 1.
Proof.
  assert (H1 : init_img grman_new (transmit 0 RGBA 1 0 2 1 px19) = true)
    by (vm_compute; reflexivity).
  assert (H2 : transmission (transmit 0 RGBA 1 0 2 1 px19) = chr "d")
    by (vm_compute; reflexivity).
  assert (H3 : start_image grman_new (transmit 0 RGBA 1 0 2 1 px19)
               = Go (resolved grman_new (transmit 0 RGBA 1 0 2 1 px19))
                    0%nat)
    by (vm_compute; reflexivity).
  rewrite (proj1 (loading_image_after_direct_start no_files grman_new
                    (transmit 0 RGBA 1 0 2 1 px19) px19 _ 0 H1 H2 H3)).
  - vm_compute. reflexivity.
  - vm_compute. discriminate.
Defined.

(** ** Transmission by file *)

Lemma acquire_file_mapped E s1 i g payload f file_sz bs :
  (i < length (images s1))%nat -> file_medium g ->
  sys_open E (transmission g =? chr "s") payload = f -> f <> -1 ->
  sys_lseek_end E f = file_sz -> file_sz <> -1 ->
  sys_mmap E f file_sz = Some bs ->
  exists s2,
    acquire E s1 i g payload = Go s2 i /\
    (i < length (images s2))%nat /\
    img_at s2 i
    = set_data_loaded true
        (set_load_data
           (set_mapped_file
              (Some {| addr := next_addr s1; bytes := bs |})
              (wrap_size file_sz))
           (set_load_data (set_fd f) (img_at s1 i))) /\
    log s2 = log s1 ++ unlink_events g payload /\
    loading_image s2 = loading_image s1.
Proof.
  intros Hi Hm Ho Hf Hs Hz Hmap.
  destruct (file_medium_tests g Hm) as [Hd Hfts].
  unfold acquire. rewrite Hd, Hfts. unfold acquire_file, mmap_img_file.
  rewrite Ho, (proj2 (Z.eqb_neq _ _) Hf).
  rewrite img_at_upd_img by exact Hi. img_simpl.
  rewrite Hs, (proj2 (Z.eqb_neq _ _) Hz), Hmap. cbn [malloc].
  unfold unlink_events.
  eexists. split; [reflexivity|].
  split; [destruct (_ =? chr "t"); [|destruct (_ =? chr "s")]; len|].
  split.
  - destruct (_ =? chr "t"); [|destruct (_ =? chr "s")]; norm; reflexivity.
  - destruct (_ =? chr "t"); [|destruct (_ =? chr "s")]; st_simpl;
      rewrite ?app_nil_r; auto.
Qed.

(** A raw image (RGB or RGBA, not compressed) sent by file, temporary file
    or shared memory, when the file opens and maps: the record holds the
    descriptor and the mapping, the name of a temporary file or of a
    shared memory object is removed, and the image is loaded exactly when
    the file has at least the expected size; its data are then the first
    [data_sz] bytes of the mapping.  A file that is too short is reported
    after its name was removed. *)
Theorem raw_file_transmission E s g payload st i sz aligned f file_sz bs :
  file_medium g -> compressed g = 0 -> format g <> PNG ->
  expected_size g = Some (sz, aligned) ->
  target_image s g = (st, i) ->
  sys_open E (transmission g =? chr "s") payload = f -> f <> -1 ->
  sys_lseek_end E f = file_sz -> file_sz <> -1 ->
  sys_mmap E f file_sz = Some bs ->
  fd (load_data (img_at (handle_add_command E s g payload) i)) = f /\
  mapped_file (load_data (img_at (handle_add_command E s g payload) i))
  = Some {| addr := next_addr s; bytes := bs |} /\
  buf (load_data (img_at (handle_add_command E s g payload) i)) = None /\
  data_loaded (img_at (handle_add_command E s g payload) i)
  = negb (wrap_size file_sz <? sz) /\
  (sz <= wrap_size file_sz ->
   pixel_data (img_at (handle_add_command E s g payload) i)
   = Some (take (Z.to_nat sz) bs)) /\
  log (handle_add_command E s g payload)
  = log st ++ unlink_events g payload
    ++ (if wrap_size file_sz <? sz
        then [Report (InsufficientData (wrap_size file_sz) sz)] else []) /\
  loading_image (handle_add_command E s g payload) = loading_image s.
Proof.
  intros Hm Hc Hfmt Hsz Ht Ho Hf Hs Hz Hmap.
  destruct (file_medium_tests g Hm) as [Hd _].
  destruct (start_image_file _ _ _ _ _ _ Hm Hsz Ht)
    as (s1 & _ & Hr & Hi1 & Hat1 & Hlog1 & Hload1 & Haddr1).
  destruct (acquire_file_mapped E s1 i g payload f file_sz bs
              Hi1 Hm Ho Hf Hs Hz Hmap)
    as (s2 & Ha & Hi2 & Hat2 & Hlog2 & Hload2).
  destruct (target_image_spec _ _ _ _ Ht)
    as (_ & _ & _ & Hb & _ & _ & _).
  unfold handle_add_command. rewrite Hr, Ha. unfold process.
  rewrite Hat2, Hat1, Haddr1. unfold started_file. img_simpl.
  rewrite Hc, Hd, (proj2 (Z.eqb_neq _ _) Hfmt). cbn [negb orb Z.eqb].
  destruct (Z.ltb_spec (wrap_size file_sz) sz) as [Hlt|Hge].
  - unfold insufficient, fail_load.
    rewrite img_at_upd_img by len. rewrite img_at_emit, Hat2, Hat1.
    unfold started_file. img_simpl. st_simpl.
    rewrite Hlog2, Hlog1, Haddr1, Hb, <- app_assoc.
    repeat split; auto; [intros H; lia|congruence].
  - rewrite img_at_upd_img by exact Hi2. rewrite Hat2, Hat1.
    unfold started_file. img_simpl. st_simpl.
    rewrite Hlog2, Hlog1, Haddr1, Hb, app_nil_r.
    repeat split; auto; [|congruence].
    intros _. unfold pixel_data, block_at. img_simpl.
    cbn [fmap option_fmap option_map addr bytes]. rewrite Hb, Z.eqb_refl.
    reflexivity.
Qed.

Lemma raw_file_transmission_witness :
  pixel_data
    (img_at (handle_add_command one_file grman_new
               (transmit (chr "t") RGBA 0 0 2 1 px4) px4) 0) = Some px8 /\
  log (handle_add_command one_file grman_new
         (transmit (chr "t") RGBA 0 0 2 1 px4) px4) = [Unlink px4].
Proof.
  assert (H1 : file_medium (transmit (chr "t") RGBA 0 0 2 1 px4))
    by (right; left; reflexivity).
  assert (H2 : format (transmit (chr "t") RGBA 0 0 2 1 px4) <> PNG)
    by (vm_compute; discriminate).
  assert (H3 : expected_size (transmit (chr "t") RGBA 0 0 2 1 px4)
               = Some (8, true)) by (vm_compute; reflexivity).
  assert (H4 : target_image grman_new (transmit (chr "t") RGBA 0 0 2 1 px4)
               = (fst (target_image grman_new
                         (transmit (chr "t") RGBA 0 0 2 1 px4)), 0%nat))
    by (vm_compute; reflexivity).
  assert (H5 : (7 : Z) <> -1) by discriminate.
  assert (H6 : (8 : Z) <> -1) by discriminate.
  destruct (raw_file_transmission one_file grman_new
              (transmit (chr "t") RGBA 0 0 2 1 px4) px4 _ 0
              8 true 7 8 px8 H1 eq_refl H2 H3 H4 eq_refl H5 eq_refl H6
              eq_refl)
    as (_ & _ & _ & _ & G1 & G2 & _).
  split; [apply G1; vm_compute; discriminate|].
  rewrite G2. vm_compute. reflexivity.
Defined.

(** When the file cannot be opened, the command reports it and stops: the
    record is not loaded and holds no descriptor of this command, and the
    name is not removed, also for a temporary file or shared memory. *)
Theorem file_open_failure E s g payload st i sz aligned :
  file_medium g -> expected_size g = Some (sz, aligned) ->
  target_image s g = (st, i) ->
  sys_open E (transmission g =? chr "s") payload = -1 ->
  data_loaded (img_at (handle_add_command E s g payload) i) = false /\
  fd (load_data (img_at (handle_add_command E s g payload) i))
  = fd (load_data (img_at st i)) /\
  mapped_file (load_data (img_at (handle_add_command E s g payload) i))
  = None /\
  log (handle_add_command E s g payload) = log st ++ [Report OpenFailed] /\
  loading_image (handle_add_command E s g payload) = loading_image s.
Proof.
  intros Hm Hsz Ht Ho.
  destruct (file_medium_tests g Hm) as [Hd Hfts].
  destruct (start_image_file _ _ _ _ _ _ Hm Hsz Ht)
    as (s1 & _ & Hr & Hi1 & Hat1 & Hlog1 & Hload1 & Haddr1).
  destruct (target_image_spec _ _ _ _ Ht)
    as (_ & Hl & _ & _ & _ & _ & Hmf & _).
  unfold handle_add_command, acquire, acquire_file.
  rewrite Hr, Hd, Hfts, Ho, Z.eqb_refl. rewrite img_at_emit, Hat1.
  unfold started_file. img_simpl. st_simpl. rewrite Hlog1.
  repeat split; auto.
Qed.

Lemma file_open_failure_witness :
  log (handle_add_command no_files grman_new
         (transmit (chr "t") RGBA 0 0 2 1 px4) px4) = [Report OpenFailed].
Proof.
  assert (H1 : file_medium (transmit (chr "t") RGBA 0 0 2 1 px4))
    by (right; left; reflexivity).
  assert (H3 : expected_size (transmit (chr "t") RGBA 0 0 2 1 px4)
               = Some (8, true)) by (vm_compute; reflexivity).
  assert (H4 : target_image grman_new (transmit (chr "t") RGBA 0 0 2 1 px4)
               = (fst (target_image grman_new
                         (transmit (chr "t") RGBA 0 0 2 1 px4)), 0%nat))
    by (vm_compute; reflexivity).
  destruct (file_open_failure no_files grman_new
              (transmit (chr "t") RGBA 0 0 2 1 px4) px4 _ 0 8 true
              H1 H3 H4 eq_refl)
    as (_ & _ & _ & G & _).
  rewrite G. vm_compute. reflexivity.
Defined.

(** When the file opens and cannot be measured or mapped, the record is
    not loaded and keeps the open descriptor, which is closed only when
    the record is released later (and only if it is positive); the name of
    a temporary file or of shared memory is removed all the same. *)
Theorem file_mapping_failure E s g payload st i sz aligned f :
  file_medium g -> expected_size g = Some (sz, aligned) ->
  target_image s g = (st, i) ->
  sys_open E (transmission g =? chr "s") payload = f -> f <> -1 ->
  sys_lseek_end E f = -1 \/
  (sys_lseek_end E f <> -1 /\ sys_mmap E f (sys_lseek_end E f) = None) ->
  data_loaded (img_at (handle_add_command E s g payload) i) = false /\
  fd (load_data (img_at (handle_add_command E s g payload) i)) = f /\
  mapped_file (load_data (img_at (handle_add_command E s g payload) i))
  = None /\
  fst (free_image (img_at (handle_add_command E s g payload) i))
  = (if 0 <? f then [Close f] else []) /\
  log (handle_add_command E s g payload)
  = log st
    ++ [Report (if sys_lseek_end E f =? -1 then SeekFailed else MapFailed)]
    ++ unlink_events g payload /\
  loading_image (handle_add_command E s g payload) = loading_image s.
Proof.
  intros Hm Hsz Ht Ho Hf Hfail.
  destruct (file_medium_tests g Hm) as [Hd Hfts].
  destruct (start_image_file _ _ _ _ _ _ Hm Hsz Ht)
    as (s1 & _ & Hr & Hi1 & Hat1 & Hlog1 & Hload1 & Haddr1).
  destruct (target_image_spec _ _ _ _ Ht)
    as (_ & Hl & _ & Hb & _ & _ & Hmf & _).
  assert (Hmm : mmap_img_file E
                  (upd_img i (set_load_data (set_fd f)) s1) i
                = (false,
                   emit [Report (if sys_lseek_end E f =? -1
                                 then SeekFailed else MapFailed)]
                     (upd_img i (set_load_data (set_fd f)) s1))).
  { unfold mmap_img_file. rewrite img_at_upd_img by exact Hi1. img_simpl.
    destruct Hfail as [Hs|[Hs Hmap]].
    - rewrite Hs. reflexivity.
    - rewrite (proj2 (Z.eqb_neq _ _) Hs), Hmap. reflexivity. }
  unfold handle_add_command, acquire, acquire_file.
  rewrite Hr, Hd, Hfts, Ho, (proj2 (Z.eqb_neq _ _) Hf), Hmm.
  set (S := upd_img i (set_data_loaded false)
              (emit [Report (if sys_lseek_end E f =? -1
                             then SeekFailed else MapFailed)]
                 (upd_img i (set_load_data (set_fd f)) s1))).
  assert (HS : img_at S i
               = set_data_loaded false
                   (set_load_data (set_fd f)
                      (started_file g sz aligned (img_at st i)))).
  { unfold S. norm. rewrite Hat1. reflexivity. }
  assert (HlogS : log S
                  = log st ++ [Report (if sys_lseek_end E f =? -1
                                       then SeekFailed else MapFailed)]).
  { unfold S. st_simpl. rewrite Hlog1. reflexivity. }
  assert (HloadS : loading_image S = loading_image s) by exact Hload1.
  unfold unlink_events, process.
  destruct (transmission g =? chr "t");
    [|destruct (transmission g =? chr "s")];
    rewrite ?img_at_emit, HS; img_simpl; cbn [negb];
    rewrite ?img_at_emit, HS; unfold started_file; img_simpl; st_simpl;
    rewrite HlogS, Hmf, Hb, ?app_nil_r, <- ?app_assoc; repeat split; auto.
Qed.

Lemma file_mapping_failure_witness :
  fd (load_data
        (img_at (handle_add_command no_map grman_new
                   (transmit (chr "s") RGBA 0 0 2 1 px4) px4) 0)) = 7 /\
  log (handle_add_command no_map grman_new
         (transmit (chr "s") RGBA 0 0 2 1 px4) px4)
  = [Report MapFailed; ShmUnlink px4].
Proof.
  assert (H1 : file_medium (transmit (chr "s") RGBA 0 0 2 1 px4))
    by (right; right; reflexivity).
  assert (H3 : expected_size (transmit (chr "s") RGBA 0 0 2 1 px4)
               = Some (8, true)) by (vm_compute; reflexivity).
  assert (H4 : target_image grman_new (transmit (chr "s") RGBA 0 0 2 1 px4)
               = (fst (target_image grman_new
                         (transmit (chr "s") RGBA 0 0 2 1 px4)), 0%nat))
    by (vm_compute; reflexivity).
  assert (H5 : (7 : Z) <> -1) by discriminate.
  assert (H6 : sys_lseek_end no_map 7 <> -1) by (vm_compute; discriminate).
  destruct (file_mapping_failure no_map grman_new
              (transmit (chr "s") RGBA 0 0 2 1 px4) px4 _ 0 8 true 7
              H1 H3 H4 eq_refl H5 (or_intror (conj H6 eq_refl)))
    as (_ & G1 & _ & _ & G2 & _).
  split; [exact G1|]. rewrite G2. vm_compute. reflexivity.
Defined.

(** ** Reading the PNG from the buffer *)

Lemma read_png_from_buffer_spec f out n :
  fake_file_ok f -> 0 <= n ->
  read_png_from_buffer (Some f) out n
  = (take (Z.to_nat (Z.min n (ff_sz f - ff_cur f)))
       (drop (Z.to_nat (ff_cur f)) (ff_buf f))
     ++ drop (Z.to_nat (Z.min n (ff_sz f - ff_cur f))) out,
     Some {| ff_buf := ff_buf f; ff_sz := ff_sz f;
             ff_cur := ff_cur f + Z.min n (ff_sz f - ff_cur f) |}).
Proof.
  intros (Hsz & Hcur & Hmax) Hn. unfold read_png_from_buffer, memcpy_at.
  rewrite wrap_size_small by lia.
  assert (Hmin : (if n <? ff_sz f - ff_cur f then n else ff_sz f - ff_cur f)
                 = Z.min n (ff_sz f - ff_cur f)).
  { destruct (Z.ltb_spec n (ff_sz f - ff_cur f)); lia. }
  rewrite Hmin, wrap_size_small by lia. reflexivity.
Qed.

(** read_png_from_buffer never reads behind the buffer and reads it in
    order: the cursor stays inside the buffer, and two reads in a row give
    what one read of the two lengths gives, in the output and in the
    cursor.  A read at the end of the buffer copies nothing and leaves
    the output as it was. *)
Theorem read_png_from_buffer_in_order f out1 out2 n m :
  fake_file_ok f -> 0 <= n -> 0 <= m ->
  length out1 = Z.to_nat n -> length out2 = Z.to_nat m ->
  (forall f1, snd (read_png_from_buffer (Some f) out1 n) = Some f1 ->
              fake_file_ok f1 /\
              ff_cur f1 = Z.min (ff_sz f) (ff_cur f + n)) /\
  fst (read_png_from_buffer (Some f) (out1 ++ out2) (n + m))
  = fst (read_png_from_buffer (Some f) out1 n)
    ++ fst (read_png_from_buffer
              (snd (read_png_from_buffer (Some f) out1 n)) out2 m) /\
  snd (read_png_from_buffer (Some f) (out1 ++ out2) (n + m))
  = snd (read_png_from_buffer
           (snd (read_png_from_buffer (Some f) out1 n)) out2 m) /\
  (ff_cur f = ff_sz f ->
   fst (read_png_from_buffer (Some f) out1 n) = out1).
Proof.
  intros Hok Hn Hm Ho1 Ho2.
  pose proof Hok as (Hsz & Hcur & Hmax).
  rewrite !(read_png_from_buffer_spec f) by (auto; lia). cbn [fst snd].
  assert (Hok1 : fake_file_ok
            {| ff_buf := ff_buf f; ff_sz := ff_sz f;
               ff_cur := ff_cur f + Z.min n (ff_sz f - ff_cur f) |}).
  { unfold fake_file_ok. cbn. lia. }
  rewrite (read_png_from_buffer_spec _ out2 m Hok1 Hm). cbn [fst snd].
  cbn [ff_buf ff_sz ff_cur].
  set (B := drop (Z.to_nat (ff_cur f)) (ff_buf f)).
  assert (HB : length B = Z.to_nat (ff_sz f - ff_cur f)).
  { unfold B. rewrite length_drop. lia. }
  split; [|split; [|split]].
  - intros f1 [= <-]. split; [exact Hok1|]. cbn. lia.
  - destruct (Z.le_gt_cases n (ff_sz f - ff_cur f)) as [Hle|Hgt].
    + rewrite (Z.min_l n) by lia.
      replace (drop (Z.to_nat (ff_cur f + n)) (ff_buf f))
        with (drop (Z.to_nat n) B)
        by (unfold B; rewrite drop_drop; f_equal; lia).
      rewrite (drop_ge out1) by lia. rewrite app_nil_r.
      replace (ff_sz f - (ff_cur f + n)) with (ff_sz f - ff_cur f - n)
        by lia.
      replace (Z.min (n + m) (ff_sz f - ff_cur f))
        with (n + Z.min m (ff_sz f - ff_cur f - n)) by lia.
      rewrite Z2Nat.inj_add by lia.
      rewrite <- take_take_drop, <- app_assoc. f_equal. f_equal.
      rewrite drop_app_ge by lia. f_equal. lia.
    + rewrite (Z.min_r n) by lia. rewrite (Z.min_r (n + m)) by lia.
      replace (ff_sz f - (ff_cur f + (ff_sz f - ff_cur f))) with 0 by lia.
      rewrite (Z.min_r m 0) by lia. cbn [Z.to_nat take drop app].
      rewrite drop_app_le by lia. rewrite app_assoc. reflexivity.
  - f_equal. f_equal. lia.
  - intros He. replace (ff_sz f - ff_cur f) with 0 by lia.
    rewrite Z.min_r by lia. reflexivity.
Qed.

Lemma read_png_from_buffer_in_order_witness :
  fst (read_png_from_buffer
         (Some {| ff_buf := px8; ff_sz := 8; ff_cur := 2 |})
         (px4 ++ px4) (4 + 4))
  = [x03; x04; x05; x06; x07; x08; x03; x04].
Proof.
  rewrite (proj1 (proj2 (read_png_from_buffer_in_order
                           {| ff_buf := px8; ff_sz := 8; ff_cur := 2 |}
                           px4 px4 4 4
                           ltac:(vm_compute; repeat split; discriminate)
                           ltac:(lia) ltac:(lia) eq_refl eq_refl))).
  vm_compute. reflexivity.
Defined.

(** ** Chunks of a direct transmission *)

Lemma img_by_internal_id_wf s i :
  wf s -> (i < length (images s))%nat ->
  img_by_internal_id s (internal_id (img_at s i)) = Some i.
Proof.
  intros Hwf Hi. unfold img_by_internal_id.
  rewrite (proj2 (list_find_Some _ _ i (img_at s i))); [reflexivity|].
  split; [apply lookup_img_at, Hi|]. split; [reflexivity|].
  intros j y Hj Hlt He.
  assert (j = i); [|lia].
  apply (wf_internal _ Hwf j i y (img_at s i));
    auto using lookup_img_at.
Qed.

Lemma memcpy_at_append dst bs payload :
  take (length bs) dst = bs ->
  (length bs + length payload <= length dst)%nat ->
  take (length bs + length payload)
    (memcpy_at dst (length bs) payload (length payload))
  = bs ++ payload /\
  length (memcpy_at dst (length bs) payload (length payload)) = length dst.
Proof.
  intros Hbs Hlen. unfold memcpy_at. rewrite Hbs, firstn_all.
  split.
  - rewrite app_assoc, take_app_length'; [reflexivity|].
    rewrite length_app. reflexivity.
  - rewrite !length_app, length_drop. lia.
Qed.

Lemma accumulating_step E s g payload i bs :
  wf s -> accumulating s i bs ->
  transmission g = chr "d" -> more g <> 0 ->
  payload_sz g = Z.of_nat (length payload) ->
  Z.of_nat (length bs) + payload_sz g
  < buf_capacity (load_data (img_at s i)) ->
  accumulating (handle_add_command E s g payload) i (bs ++ payload) /\
  log (handle_add_command E s g payload) = log s /\
  buf_capacity (load_data (img_at (handle_add_command E s g payload) i))
  = buf_capacity (load_data (img_at s i)) /\
  data_sz (load_data (img_at (handle_add_command E s g payload) i))
  = data_sz (load_data (img_at s i)).
Proof.
  intros Hwf (Hi & Hl0 & Hid & Hnl & HIB & Hused & b & Hb & Hcap)
    Hd Hm Hp Hfit.
  pose proof (list_elem_of_lookup_2 _ _ _ (lookup_img_at _ _ Hi)) as Hin.
  destruct (wf_ok _ Hwf _ Hin) as (Hu & Hc & _).
  assert (Hn : init_img s g = false).
  { unfold init_img. rewrite Hd, Z.eqb_refl.
    apply Z.eqb_neq in Hm, Hl0. rewrite Hm, Hl0. reflexivity. }
  unfold handle_add_command, resolve_image, continue_image.
  rewrite Hn, <- Hid, img_by_internal_id_wf by assumption.
  unfold acquire. rewrite Hd, Z.eqb_refl. unfold acquire_direct.
  rewrite (wrap_size_small (_ - _)) by lia.
  destruct (Z.geb_spec (payload_sz g)
              (buf_capacity (load_data (img_at s i))
               - buf_used (load_data (img_at s i)))) as [Hge|Hlt]; [lia|].
  apply Z.eqb_neq in Hm. rewrite Hm.
  unfold process. rewrite img_at_upd_img by exact Hi. img_simpl.
  rewrite Hnl. cbn [negb]. rewrite img_at_upd_img by exact Hi. img_simpl.
  st_simpl. rewrite Hb. cbn [fmap option_fmap option_map].
  rewrite wrap_size_small by lia.
  assert (Hbs : take (length bs) (bytes b) = bs).
  { unfold IB in HIB. rewrite Hb, Hused, Nat2Z.id in HIB. exact HIB. }
  destruct (memcpy_at_append (bytes b) bs payload Hbs ltac:(lia))
    as [Ht Hlen].
  rewrite Hused, Hp, !Nat2Z.id.
  split; [|auto].
  unfold accumulating. rewrite length_upd_img, img_at_upd_img by exact Hi.
  img_simpl. st_simpl.
  split; [exact Hi|]. split; [exact Hl0|].
  split; [exact Hid|]. split; [exact Hnl|].
  split.
  { unfold IB. img_simpl. rewrite <- Nat2Z.inj_add, Nat2Z.id. exact Ht. }
  split; [rewrite length_app; lia|].
  eexists. split; [reflexivity|]. cbn [bytes]. rewrite Hlen. exact Hcap.
Qed.

Lemma wf_continue E s g payload i :
  wf s -> accumulating s i (IB (load_data (img_at s i))) ->
  transmission g = chr "d" -> more g <> 0 -> 0 <= payload_sz g ->
  wf (handle_add_command E s g payload).
Proof.
  intros Hwf (Hi & Hl0 & Hid & _) Hd Hm Hp.
  assert (Hn : init_img s g = false).
  { unfold init_img. rewrite Hd, Z.eqb_refl.
    apply Z.eqb_neq in Hm, Hl0. rewrite Hm, Hl0. reflexivity. }
  pose proof (img_by_internal_id_wf s i Hwf Hi) as Hf. rewrite Hid in Hf.
  eapply wf_touch;
    [exact Hwf|exact Hi|apply handle_add_command_continue; eauto
    |exact Hp|discriminate].
Qed.

(** Chunks with the "more" flag accumulate in order: when a record is the
    pending load, a sequence of direct chunks that carry the flag and fit
    together below the capacity of its buffer appends their payloads, one
    after the other, to the bytes the record has accumulated.  The record
    stays unloaded and pending, its capacity and expected size stay, and
    nothing is reported. *)
Theorem chunks_accumulate cmds s i bs :
  wf s -> accumulating s i bs -> Forall is_chunk cmds ->
  Z.of_nat (length bs) + Z.of_nat (length (payloads cmds))
  < buf_capacity (load_data (img_at s i)) ->
  accumulating (run cmds s) i (bs ++ payloads cmds) /\
  wf (run cmds s) /\
  log (run cmds s) = log s /\
  buf_capacity (load_data (img_at (run cmds s) i))
  = buf_capacity (load_data (img_at s i)) /\
  data_sz (load_data (img_at (run cmds s) i))
  = data_sz (load_data (img_at s i)).
Proof.
  revert s bs. induction cmds as [|c cmds IH]; intros s bs Hwf Hacc Hch Hfit.
  - cbn. rewrite app_nil_r. auto.
  - apply Forall_cons in Hch. destruct Hch as [Hc Hch].
    destruct c as [[E g] payload]. destruct Hc as (Ha & Hd & Hm & Hp).
    cbn [fst snd] in Ha, Hd, Hm, Hp.
    unfold payloads in Hfit |- *. cbn [fmap list_fmap concat snd] in Hfit |- *.
    fold (payloads cmds) in Hfit |- *.
    rewrite length_app, Nat2Z.inj_add in Hfit.
    cbn [run foldl]. fold (run cmds (step s (E, g, payload))).
    change (step s (E, g, payload))
      with (grman_handle_command E s g payload).
    rewrite grman_handle_command_transmit by exact Ha.
    assert (W1 : wf (handle_add_command E s g payload)).
    { apply (wf_continue E s g payload i); auto; [|lia].
      destruct Hacc as (A1 & A2 & A3 & A4 & A5 & A6 & A7).
      unfold accumulating. rewrite A5. auto 10. }
    destruct (accumulating_step E s g payload i bs Hwf Hacc Hd Hm Hp
                ltac:(lia)) as (Hacc1 & Hlog1 & Hcap1 & Hsz1).
    destruct (IH _ (bs ++ payload) W1 Hacc1 Hch) as (R1 & R2 & R3 & R4 & R5).
    { rewrite Hcap1, length_app, Nat2Z.inj_add. lia. }
    rewrite <- app_assoc in R1.
    split; [exact R1|]. split; [exact R2|].
    split; [congruence|]. split; congruence.
Qed.

Lemma chunks_accumulate_witness :
  IB (load_data
        (img_at (run [(no_files, transmit 0 RGBA 1 0 2 1 px4', px4')]
                   pending) 0))
  = px4 ++ px4'.
Proof.
  assert (H1 : accumulating pending 0 px4).
  { unfold accumulating.
    assert (img_at pending 0 = img_at pending 0 /\
            buf (load_data (img_at pending 0))
            = Some {| addr := 1; bytes := px4 ++ repeat x00 18 |})
      as [_ Hb] by (vm_compute; split; reflexivity).
    split; [vm_compute; lia|]. split; [vm_compute; discriminate|].
    split; [vm_compute; reflexivity|]. split; [vm_compute; reflexivity|].
    split; [vm_compute; reflexivity|]. split; [vm_compute; reflexivity|].
    eexists. split; [exact Hb|]. vm_compute. discriminate. }
  assert (H2 : Forall is_chunk
                 [(no_files, transmit 0 RGBA 1 0 2 1 px4', px4')]).
  { apply Forall_cons. split; [|apply Forall_nil; exact I].
    split; [right; reflexivity|].
    split; [reflexivity|]. split; [vm_compute; discriminate|reflexivity]. }
  assert (H3 : Z.of_nat (length px4)
               + Z.of_nat (length (payloads
                    [(no_files, transmit 0 RGBA 1 0 2 1 px4', px4')]))
               < buf_capacity (load_data (img_at pending 0)))
    by (vm_compute; reflexivity).
  destruct (chunks_accumulate _ pending 0%nat px4 pending_wf H1 H2 H3)
    as ((_ & _ & _ & _ & H & _) & _).
  exact H.
Defined.

(** The expected size of a known format is at most four bytes for each
    of fewer than 2^32 pixels. *)
Lemma expected_size_small g sz aligned :
  expected_size g = Some (sz, aligned) -> 0 <= sz <= 4 * (u32_mod - 1).
Proof.
  unfold expected_size, format_size.
  pose proof (wrap_u32_range (data_width g * data_height g)) as Hr.
  assert (Hm : 4 * u32_mod < size_mod) by (vm_compute; reflexivity).
  destruct (Z.eqb_spec (format g) PNG) as [_|_].
  { intros [= <- _]. rewrite wrap_size_small by lia. lia. }
  destruct (Z.eqb_spec (format g) RGB) as [->|_]; cbn [orb].
  { intros [= <- _]. change (RGB / 8) with 3.
    rewrite wrap_size_small by lia. lia. }
  destruct (Z.eqb_spec (format g) RGBA) as [->|_]; [|discriminate].
  intros [= <- _]. change (RGBA / 8) with 4.
  rewrite wrap_size_small by lia. lia.
Qed.

(** The first chunk of a direct transmission of a known format, sent
    with the "more" flag while no load is pending, makes its record the
    pending load with exactly the payload accumulated: the buffer has the
    expected size and the slack as its capacity, which never wraps, and
    is at least that long. *)
Theorem first_chunk_starts_accumulation E s g payload st i sz aligned :
  wf s -> internal_id_counter s + 1 < size_mod ->
  loading_image s = 0 ->
  transmission g = chr "d" -> more g <> 0 ->
  payload_sz g = Z.of_nat (length payload) ->
  target_image s g = (st, i) ->
  expected_size g = Some (sz, aligned) ->
  payload_sz g < sz + slack g ->
  accumulating (handle_add_command E s g payload) i payload /\
  buf_capacity (load_data (img_at (handle_add_command E s g payload) i))
  = sz + slack g /\
  data_sz (load_data (img_at (handle_add_command E s g payload) i)) = sz /\
  log (handle_add_command E s g payload) = log st.
Proof.
  intros Hwf Hc Hl0 Hd Hm Hp Ht Hsz Hfit.
  destruct (wf_target_image _ _ _ _ Hwf Hc Ht) as [W1 _].
  destruct (target_image_spec _ _ _ _ Ht) as (Hi & Hnl & _).
  pose proof (list_elem_of_lookup_2 _ _ _ (lookup_img_at _ _ Hi)) as Hin.
  pose proof (wf_issued _ W1 _ Hin) as Hpos.
  pose proof (expected_size_small _ _ _ Hsz) as Hsmall.
  assert (Hm4 : 4 * u32_mod + 1028 < size_mod) by (vm_compute; reflexivity).
  assert (Hslack : 10 <= slack g <= 1024)
    by (unfold slack; destruct (_ || _); lia).
  assert (Hn : init_img s g = true).
  { unfold init_img. rewrite Hl0, Hd. cbn. rewrite andb_false_r.
    reflexivity. }
  assert (Hs : exists s1, start_image s g = Go s1 i).
  { unfold start_image. rewrite Ht, Hd, Z.eqb_refl.
    rewrite img_at_upd_img by exact Hi. img_simpl.
    unfold expected_size in Hsz. rewrite Hsz. cbn [malloc].
    eexists. reflexivity. }
  destruct Hs as [s1 Hs].
  destruct (start_image_direct _ _ _ _ Hd Hs)
    as (st' & sz' & al' & Ht' & Hsz' & Hi1 & Hat & Hload & Hlog).
  rewrite Ht in Ht'. injection Ht' as <-.
  unfold expected_size in Hsz. rewrite Hsz in Hsz'. injection Hsz' as <- <-.
  apply Z.eqb_neq in Hm. rewrite Hm in Hload.
  unfold handle_add_command, resolve_image. rewrite Hn, Hs.
  unfold acquire. rewrite Hd, Z.eqb_refl. unfold acquire_direct.
  rewrite Hat. unfold started. img_simpl.
  rewrite !(wrap_size_small (sz + slack g)) by lia.
  rewrite (wrap_size_small (sz + slack g + 4)) by lia.
  rewrite Z.sub_0_r, (wrap_size_small (sz + slack g)) by lia.
  destruct (Z.geb_spec (payload_sz g) (sz + slack g)) as [Hge|Hlt]; [lia|].
  rewrite Hm. unfold process.
  rewrite img_at_upd_img by exact Hi1. rewrite Hat. unfold started. img_simpl.
  rewrite Hnl. cbn [negb fmap option_fmap option_map addr bytes].
  rewrite Z.add_0_l, wrap_size_small by lia.
  unfold accumulating.
  rewrite length_upd_img, img_at_upd_img by exact Hi1.
  rewrite ?Hat. unfold started. img_simpl. st_simpl.
  rewrite Hload.
  assert (Hcopy :
    take (length payload)
      (memcpy_at (repeat x00 (Z.to_nat (sz + slack g + 4))) (Z.to_nat 0)
         payload (Z.to_nat (payload_sz g))) = payload).
  { unfold memcpy_at. rewrite Hp, Nat2Z.id, firstn_all.
    change (Z.to_nat 0) with 0%nat. rewrite take_0. cbn [app].
    rewrite take_app_length. reflexivity. }
  split; [|auto].
  split; [exact Hi1|]. split; [lia|]. split; [reflexivity|].
  split; [exact Hnl|]. split.
  { unfold IB. img_simpl. cbn [bytes]. rewrite Hp, Nat2Z.id in Hcopy |- *.
    exact Hcopy. }
  split; [exact Hp|].
  eexists. split; [reflexivity|]. cbn [bytes]. unfold memcpy_at.
  rewrite !length_app, length_take, length_drop, length_take, !repeat_length.
  lia.
Qed.

Lemma first_chunk_starts_accumulation_witness :
  accumulating
    (handle_add_command no_files grman_new (transmit 0 RGBA 1 0 2 1 px4) px4)
    0 px4.
Proof.
  assert (H1 : target_image grman_new (transmit 0 RGBA 1 0 2 1 px4)
               = (fst (target_image grman_new (transmit 0 RGBA 1 0 2 1 px4)),
                  0%nat))
    by (vm_compute; reflexivity).
  assert (H2 : expected_size (transmit 0 RGBA 1 0 2 1 px4) = Some (8, true))
    by (vm_compute; reflexivity).
  assert (H3 : payload_sz (transmit 0 RGBA 1 0 2 1 px4)
               < 8 + slack (transmit 0 RGBA 1 0 2 1 px4))
    by (vm_compute; reflexivity).
  assert (H4 : internal_id_counter grman_new + 1 < size_mod)
    by (vm_compute; reflexivity).
  assert (H5 : more (transmit 0 RGBA 1 0 2 1 px4) <> 0)
    by (vm_compute; discriminate).
  exact (proj1 (first_chunk_starts_accumulation no_files grman_new
                  (transmit 0 RGBA 1 0 2 1 px4) px4 _ 0%nat 8 true
                  wf_grman_new H4 eq_refl eq_refl H5 eq_refl H1 H2 H3)).
Defined.

(** ** Loaded records have their pixel data *)















(** ** Decoding a direct transmission *)

Lemma direct_acquired E s g payload st i sz aligned :
  complete s g payload sz ->
  target_image s g = (st, i) -> expected_size g = Some (sz, aligned) ->
  exists s1 s2 B,
    resolve_image s g = Go s1 i /\ acquire E s1 i g payload = Go s2 i /\
    (i < length (images s2))%nat /\
    img_at s2 i = acquired g (next_addr s) sz aligned B (img_at st i) /\
    take (length payload) B = payload /\
    log s2 = log st /\ loading_image s2 = 0 /\
    next_addr s2 = next_addr s + 1.
Proof.
  intros (Hn & Hd & Hm & Hp & Hfit) Ht Hsz.
  pose proof (expected_size_small _ _ _ Hsz) as Hsmall.
  assert (Hm4 : 4 * u32_mod + 1028 < size_mod) by (vm_compute; reflexivity).
  assert (Hslack : 10 <= slack g <= 1024)
    by (unfold slack; destruct (_ || _); lia).
  destruct (target_image_spec _ _ _ _ Ht)
    as (Hi & _ & _ & _ & _ & _ & _ & _ & Haddr & _).
  assert (Hs : exists s1, start_image s g = Go s1 i).
  { unfold start_image. rewrite Ht, Hd, Z.eqb_refl.
    rewrite img_at_upd_img by exact Hi. img_simpl.
    unfold expected_size in Hsz. rewrite Hsz. cbn [malloc].
    eexists. reflexivity. }
  destruct Hs as [s1 Hs].
  destruct (start_image_direct _ _ _ _ Hd Hs)
    as (st' & sz' & al' & Ht' & Hsz' & Hi1 & Hat & Hload & Hlog).
  rewrite Ht in Ht'. injection Ht' as <-.
  unfold expected_size in Hsz. rewrite Hsz in Hsz'. injection Hsz' as <- <-.
  assert (Haddr1 : next_addr s1 = next_addr s + 1).
  { unfold start_image in Hs. rewrite Ht, Hd, Z.eqb_refl in Hs.
    rewrite img_at_upd_img in Hs by exact Hi. img_simpl.
    rewrite Hsz in Hs. cbn [malloc] in Hs. injection Hs as <-.
    rewrite Hm. change (0 =? 0) with true. cbn [negb]. st_simpl.
    rewrite Haddr. reflexivity. }
  exists s1. unfold resolve_image, acquire, acquire_direct.
  rewrite Hn, Hs, Hd, Z.eqb_refl, Hat. unfold started. img_simpl.
  rewrite !(wrap_size_small (sz + slack g)) by lia.
  rewrite (wrap_size_small (sz + slack g + 4)) by lia.
  rewrite Z.sub_0_r, (wrap_size_small (sz + slack g)) by lia.
  destruct (Z.geb_spec (payload_sz g) (sz + slack g)) as [Hge|Hlt]; [lia|].
  rewrite Hm, Z.add_0_l, wrap_size_small by lia.
  change (0 =? 0) with true. cbn [fmap option_fmap option_map addr bytes].
  eexists. eexists. split; [reflexivity|]. split; [reflexivity|].
  split; [len|]. split; [|split; [|split; [|split]]].
  - norm. rewrite Hat. unfold acquired, started, started_file.
    reflexivity.
  - unfold memcpy_at. rewrite Hp, Nat2Z.id, firstn_all.
    change (Z.to_nat 0) with 0%nat. rewrite take_0. cbn [app].
    apply take_app_length.
  - st_simpl. exact Hlog.
  - reflexivity.
  - st_simpl. exact Haddr1.
Qed.



(** The decompression stage of a complete direct transmission: zlib is
    given the payload, as far as a 32-bit counter counts it, and an output
    counter that starts at the expected size modulo 2^32. *)
Lemma compressed_direct E s g payload st i sz aligned ret avail_out out :
  complete s g payload sz ->
  compressed g = chr "z" -> format g <> PNG ->
  expected_size g = Some (sz, aligned) ->
  target_image s g = (st, i) ->
  zlib_inflate E (take (Z.to_nat (wrap_u32 (payload_sz g))) payload)
    (wrap_u32 sz) = (ret, avail_out, out) ->
  (data_loaded (img_at (handle_add_command E s g payload) i) = true <->
   zlib_inflateInit E = Z_OK /\ ret = Z_STREAM_END /\ avail_out = 0) /\
  (data_loaded (img_at (handle_add_command E s g payload) i) = true ->
   buf (load_data (img_at (handle_add_command E s g payload) i))
   = Some {| addr := next_addr s + 1; bytes := out |} /\
   buf_used (load_data (img_at (handle_add_command E s g payload) i)) = sz /\
   data_sz (load_data (img_at (handle_add_command E s g payload) i)) = sz /\
   pixel_data (img_at (handle_add_command E s g payload) i)
   = Some (take (Z.to_nat sz) out) /\
   log (handle_add_command E s g payload) = log st ++ [Free (next_addr s)]) /\
  (data_loaded (img_at (handle_add_command E s g payload) i) = false ->
   IB (load_data (img_at (handle_add_command E s g payload) i)) = payload /\
   exists r, log (handle_add_command E s g payload)
             = log st ++ [Report r; Free (next_addr s + 1)]) /\
  loading_image (handle_add_command E s g payload) = 0.
Proof.
  intros Hc Hz Hf Hsz Ht Hinf.
  destruct (direct_acquired E s g payload st i _ _ Hc Ht Hsz)
    as (s1 & s2 & B & Hr & Ha & Hi2 & Hat & HB & Hlog & Hload & Haddr).
  pose proof (target_image_fd _ _ _ _ Ht) as Hfd.
  pose proof (expected_size_small _ _ _ Hsz) as Hsmall.
  assert (Hm4 : 4 * u32_mod < size_mod) by (vm_compute; reflexivity).
  destruct (target_image_spec _ _ _ _ Ht)
    as (_ & _ & _ & _ & _ & _ & Hmf & _).
  destruct Hc as (_ & _ & _ & Hp & _).
  assert (HIB : IB (load_data (img_at s2 i)) = payload).
  { rewrite Hat. unfold IB, acquired. img_simpl. cbn [bytes].
    rewrite Hp, Nat2Z.id. exact HB. }
  assert (HIBsz : IB_sz (load_data (img_at s2 i)) = payload_sz g)
    by (rewrite Hat; reflexivity).
  assert (Hdsz : data_sz (load_data (img_at s2 i)) = sz)
    by (rewrite Hat; reflexivity).
  assert (Hl2 : data_loaded (img_at s2 i) = true)
    by (rewrite Hat; reflexivity).
  assert (Hev : fst (free_load_data (load_data (img_at s2 i)))
                = [Free (next_addr s)]).
  { rewrite Hat. unfold acquired, started_file. img_simpl.
    rewrite Hmf. cbn [addr].
    destruct (Z.ltb_spec 0 (fd (load_data (img_at st i)))); [lia|].
    reflexivity. }
  cbn [free_load_data fst] in Hev.
  unfold handle_add_command. rewrite Hr, Ha.
  unfold process, decompress. rewrite Hl2, Hz, !Z.eqb_refl.
  cbn [negb orb]. change (chr "z" =? 0) with false. cbn [negb orb].
  unfold inflate_zlib. rewrite HIB, HIBsz, Hdsz. cbn [malloc]. rewrite Hinf.
  destruct (Z.eqb_spec (zlib_inflateInit E) Z_OK) as [Hinit|Hinit];
    cbn [negb].
  2:{ unfold fail_load. norm. rewrite Hlog, Haddr.
      split; [split; [discriminate|tauto]|]. split; [discriminate|].
      split; [|exact Hload]. intros _. split; [exact HIB|].
      eexists. reflexivity. }
  destruct (Z.eqb_spec ret Z_STREAM_END) as [Hret|Hret]; cbn [negb].
  2:{ unfold fail_load. norm. rewrite Hlog, Haddr.
      split; [split; [discriminate|tauto]|]. split; [discriminate|].
      split; [|exact Hload]. intros _. split; [exact HIB|].
      eexists. reflexivity. }
  destruct (Z.eqb_spec avail_out 0) as [Hav|Hav]; cbn [negb].
  2:{ unfold fail_load. norm. rewrite Hlog, Haddr.
      split; [split; [discriminate|tauto]|]. split; [discriminate|].
      split; [|exact Hload]. intros _. split; [exact HIB|].
      eexists. reflexivity. }
  subst avail_out. rewrite Z.sub_0_r, wrap_size_small by lia.
  cbn [free_load_data snd fst]. unfold decode.
  rewrite (proj2 (Z.eqb_neq _ _) Hf).
  repeat rewrite img_at_upd_img by len. norm.
  rewrite Hdsz, Z.ltb_irrefl.
  repeat rewrite img_at_upd_img by len. norm.
  rewrite Hl2, Hev, Hlog, Haddr, Hdsz.
  split; [tauto|]. split; [|split; [discriminate|exact Hload]].
  intros _. split; [reflexivity|]. split; [reflexivity|].
  split; [reflexivity|]. split; [|reflexivity].
  unfold pixel_data, block_at. img_simpl.
  cbn [fmap option_fmap option_map addr bytes]. rewrite Z.eqb_refl, Hdsz.
  reflexivity.
Qed.

(** C6 fails on the code.  An RGBA image of 2 by 536870913 pixels has the
    expected size 2^32 + 8.  Sent as the deflate stream of 8 bytes, it
    passes the decompression stage: zlib's output counter starts at 8,
    the low 32 bits of the expected size, and is at 0 when the stream
    ends.  The record is loaded with 2^32 + 8 bytes counted as used, of
    which zlib has written 8. *)
Lemma inflate_zlib_truncates_size :
  data_loaded
    (img_at (handle_add_command zlib_8 grman_new huge_deflated
               deflated_px8) 0) = true /\
  data_sz
    (load_data
       (img_at (handle_add_command zlib_8 grman_new huge_deflated
                  deflated_px8) 0)) = 2 ^ 32 + 8 /\
  buf_used
    (load_data
       (img_at (handle_add_command zlib_8 grman_new huge_deflated
                  deflated_px8) 0)) = 2 ^ 32 + 8 /\
  buf (load_data
         (img_at (handle_add_command zlib_8 grman_new huge_deflated
                    deflated_px8) 0))
  = Some {| addr := 2; bytes := px8 |}.
Proof.
  assert (H1 : complete grman_new huge_deflated deflated_px8 (2 ^ 32 + 8)).
  { unfold complete. split; [vm_compute; reflexivity|].
    split; [vm_compute; reflexivity|]. split; [reflexivity|].
    split; vm_compute; reflexivity. }
  assert (H2 : target_image grman_new huge_deflated
               = (fst (target_image grman_new huge_deflated), 0%nat))
    by (vm_compute; reflexivity).
  assert (H3 : format huge_deflated <> PNG) by (vm_compute; discriminate).
  assert (H4 : expected_size huge_deflated = Some (2 ^ 32 + 8, true))
    by (vm_compute; reflexivity).
  assert (H5 : zlib_inflate zlib_8
                 (take (Z.to_nat (wrap_u32 (payload_sz huge_deflated)))
                    deflated_px8)
                 (wrap_u32 (2 ^ 32 + 8))
               = (Z_STREAM_END, 0, px8))
    by (vm_compute; reflexivity).
  destruct (compressed_direct zlib_8 grman_new huge_deflated deflated_px8
              _ 0%nat (2 ^ 32 + 8) true Z_STREAM_END 0 px8
              H1 eq_refl H3 H4 H2 H5)
    as (Hiff & Hok & _).
  assert (Hl : data_loaded
                 (img_at (handle_add_command zlib_8 grman_new huge_deflated
                            deflated_px8) 0) = true)
    by (apply Hiff; repeat split).
  destruct (Hok Hl) as (Hb & Hu & Hd & _).
  split; [exact Hl|]. split; [exact Hd|]. split; [exact Hu|exact Hb].
Qed.

(** A raw image sent directly in one command as a deflate stream, with an
    expected size and a payload below 2^32 bytes, so that zlib's counters
    hold them: zlib reads exactly the payload, into a buffer of the
    expected size.  The image is loaded exactly when the stream ends
    cleanly and fills that buffer; its data are then the inflated bytes,
    as many as expected, in a new buffer, the buffer of the payload is
    released, and the check of the size cannot fail any more.  In every
    other case one error is reported, the new buffer is released and the
    record keeps the payload. *)
Theorem compressed_direct_transmission
    E s g payload st i sz aligned ret avail_out out :
  complete s g payload sz ->
  compressed g = chr "z" -> format g <> PNG ->
  expected_size g = Some (sz, aligned) ->
  target_image s g = (st, i) ->
  sz < u32_mod -> payload_sz g < u32_mod ->
  zlib_inflate E payload sz = (ret, avail_out, out) ->
  Z.of_nat (length out) = sz - avail_out ->
  (data_loaded (img_at (handle_add_command E s g payload) i) = true <->
   zlib_inflateInit E = Z_OK /\ ret = Z_STREAM_END /\ avail_out = 0) /\
  (data_loaded (img_at (handle_add_command E s g payload) i) = true ->
   buf (load_data (img_at (handle_add_command E s g payload) i))
   = Some {| addr := next_addr s + 1; bytes := out |} /\
   buf_used (load_data (img_at (handle_add_command E s g payload) i)) = sz /\
   pixel_data (img_at (handle_add_command E s g payload) i) = Some out /\
   Z.of_nat (length out) = sz /\
   log (handle_add_command E s g payload) = log st ++ [Free (next_addr s)]) /\
  (data_loaded (img_at (handle_add_command E s g payload) i) = false ->
   IB (load_data (img_at (handle_add_command E s g payload) i)) = payload /\
   exists r, log (handle_add_command E s g payload)
             = log st ++ [Report r; Free (next_addr s + 1)]) /\
  loading_image (handle_add_command E s g payload) = 0.
Proof.
  intros Hc Hz Hf Hsz Ht Hs32 Hp32 Hinf Hlen.
  pose proof (expected_size_small _ _ _ Hsz) as Hsmall.
  assert (Hp : payload_sz g = Z.of_nat (length payload))
    by (destruct Hc as (_ & _ & _ & Hp & _); exact Hp).
  assert (Hinf' :
    zlib_inflate E (take (Z.to_nat (wrap_u32 (payload_sz g))) payload)
      (wrap_u32 sz) = (ret, avail_out, out)).
  { rewrite !wrap_u32_small by lia. rewrite take_ge by lia. exact Hinf. }
  destruct (compressed_direct E s g payload st i sz aligned ret avail_out out
              Hc Hz Hf Hsz Ht Hinf') as (G1 & G2 & G3 & G4).
  split; [exact G1|]. split; [|split; [exact G3|exact G4]].
  intros Hl. destruct (G2 Hl) as (Hb & Hu & _ & Hpx & Hlog).
  assert (Hav : avail_out = 0) by (apply G1 in Hl; tauto).
  rewrite Hav, Z.sub_0_r in Hlen.
  rewrite take_ge in Hpx by lia. auto.
Qed.

Lemma compressed_direct_transmission_witness :
  pixel_data
    (img_at (handle_add_command zlib_8 grman_new
               (deflated (transmit 0 RGBA 0 5 2 1 deflated_px8))
               deflated_px8) 0)
  = Some px8.
Proof.
  assert (H1 : complete grman_new
                 (deflated (transmit 0 RGBA 0 5 2 1 deflated_px8))
                 deflated_px8 8).
  { unfold complete. split; [vm_compute; reflexivity|].
    split; [vm_compute; reflexivity|]. split; [reflexivity|].
    split; vm_compute; reflexivity. }
  assert (H2 : target_image grman_new
                 (deflated (transmit 0 RGBA 0 5 2 1 deflated_px8))
               = (fst (target_image grman_new
                         (deflated (transmit 0 RGBA 0 5 2 1 deflated_px8))),
                  0%nat))
    by (vm_compute; reflexivity).
  assert (H3 : format (deflated (transmit 0 RGBA 0 5 2 1 deflated_px8))
               <> PNG)
    by (vm_compute; discriminate).
  assert (H4 : expected_size
                 (deflated (transmit 0 RGBA 0 5 2 1 deflated_px8))
               = Some (8, true))
    by (vm_compute; reflexivity).
  assert (H5 : 8 < u32_mod) by (vm_compute; reflexivity).
  assert (H6 : payload_sz (deflated (transmit 0 RGBA 0 5 2 1 deflated_px8))
               < u32_mod)
    by (vm_compute; reflexivity).
  assert (H7 : zlib_inflate zlib_8 deflated_px8 8 = (Z_STREAM_END, 0, px8))
    by (vm_compute; reflexivity).
  assert (H8 : Z.of_nat (length px8) = 8 - 0) by (vm_compute; reflexivity).
  destruct (compressed_direct_transmission zlib_8 grman_new
              (deflated (transmit 0 RGBA 0 5 2 1 deflated_px8)) deflated_px8
              _ 0%nat 8 true Z_STREAM_END 0 px8
              H1 eq_refl H3 H4 H2 H5 H6 H7 H8)
    as (Hiff & Hok & _).
  destruct (Hok (proj2 Hiff (conj eq_refl (conj eq_refl eq_refl))))
    as (_ & _ & Hpx & _).
  exact Hpx.
Defined.

(** A direct transmission in one command with a compression code that is
    neither 0 nor 'z' is given up after its payload was copied: the error
    is reported, the record is not loaded and keeps the payload in its
    buffer, and no load is pending. *)
Theorem unknown_compression E s g payload st i sz aligned :
  complete s g payload sz ->
  compressed g <> 0 -> compressed g <> chr "z" ->
  expected_size g = Some (sz, aligned) ->
  target_image s g = (st, i) ->
  data_loaded (img_at (handle_add_command E s g payload) i) = false /\
  IB (load_data (img_at (handle_add_command E s g payload) i)) = payload /\
  buf_capacity (load_data (img_at (handle_add_command E s g payload) i))
  = sz + 1024 /\
  log (handle_add_command E s g payload)
  = log st ++ [Report (UnknownCompression (compressed g))] /\
  loading_image (handle_add_command E s g payload) = 0.
Proof.
  intros Hc Hz0 Hz Hsz Ht.
  destruct (direct_acquired E s g payload st i _ _ Hc Ht Hsz)
    as (s1 & s2 & B & Hr & Ha & Hi2 & Hat & HB & Hlog & Hload & Haddr).
  destruct Hc as (_ & _ & _ & Hp & _).
  assert (HIB : IB (load_data (img_at s2 i)) = payload).
  { rewrite Hat. unfold IB, acquired. img_simpl. cbn [bytes].
    rewrite Hp, Nat2Z.id. exact HB. }
  assert (Hl2 : data_loaded (img_at s2 i) = true)
    by (rewrite Hat; reflexivity).
  assert (Hcap : buf_capacity (load_data (img_at s2 i)) = sz + 1024).
  { rewrite Hat. unfold acquired, slack. img_simpl.
    rewrite (proj2 (Z.eqb_neq _ _) Hz0). reflexivity. }
  unfold handle_add_command. rewrite Hr, Ha.
  unfold process, decompress. rewrite Hl2.
  rewrite (proj2 (Z.eqb_neq _ _) Hz0), (proj2 (Z.eqb_neq _ _) Hz).
  cbn [negb orb]. unfold fail_load. norm.
  rewrite Hlog. auto.
Qed.

Lemma unknown_compression_witness :
  last (log (handle_add_command no_files grman_new
               {| action := chr "t"; transmission_type := 0;
                  compressed := chr "q"; format := RGBA; more := 0; id := 5;
                  data_width := 2; data_height := 1; payload_sz := 4 |} px4))
  = Some (Report (UnknownCompression (chr "q"))).
Proof.
  assert (H1 : complete grman_new
                 {| action := chr "t"; transmission_type := 0;
                    compressed := chr "q"; format := RGBA; more := 0; id := 5;
                    data_width := 2; data_height := 1; payload_sz := 4 |}
                 px4 8).
  { unfold complete. split; [vm_compute; reflexivity|].
    split; [vm_compute; reflexivity|]. split; [reflexivity|].
    split; vm_compute; reflexivity. }
  assert (H2 : chr "q" <> 0) by (vm_compute; discriminate).
  assert (H3 : chr "q" <> chr "z") by (vm_compute; discriminate).
  destruct (unknown_compression no_files grman_new _ px4
              (fst (target_image grman_new
                      {| action := chr "t"; transmission_type := 0;
                         compressed := chr "q"; format := RGBA; more := 0;
                         id := 5; data_width := 2; data_height := 1;
                         payload_sz := 4 |}))
              0%nat 8 true H1 H2 H3 eq_refl eq_refl)
    as (_ & _ & _ & Hlog & _).
  rewrite Hlog. vm_compute. reflexivity.
Defined.
